(** * spyProt: the PDB-bundle chain mapping reader and chain remapper

    A shallow embedding of [PdbFile.parsePdbBundleChainIdFile],
    [PdbFile.parsePdbAndTranslateChain] and [PdbFile.download]
    (src/spyprot/fetchChainInfo.py), together with the parts of the Python
    runtime they rest on: [str] methods, list indexing, text-mode line
    reading and the [csv.reader] state machine.

    A Python [str] is a sequence of code points and is modelled as a list of
    [N]; a [dict] with string keys is a [gmap]; an exception is a value of
    [exn] carried by [result]; the file system is a [gmap] from paths to the
    decoded text of the files, threaded through the calls that read and
    write it.  The network, the tar archive, Bio.PDB and [glob] stay outside:
    [download] takes them as parameters. *)

From Stdlib Require Import NArith ZArith List String Ascii Bool Lia Sorted.
From stdpp Require Import base option list gmap.

Local Open Scope N_scope.
Local Open Scope list_scope.

(** ** Python strings *)

Module Py.

Abbreviation pystr := (list N).

(** A literal: the code points of an ASCII string. *)
Definition py (s : string) : pystr := map N_of_ascii (list_ascii_of_string s).

Definition LF : N := 10.
Definition CR : N := 13.
Definition COMMA : N := 44.
Definition QUOTE : N := 34.
Definition PERCENT : N := 37.

(** A literal followed by the line terminator. *)
Definition ln (s : string) : pystr := py s ++ [LF].

(** The exceptions the modelled code can raise. *)
Inductive exn : Type :=
| IndexError
| TypeError
| CsvError
| HTTPError
| FileNotFoundError.

Inductive result (A : Type) : Type :=
| Ok (a : A)
| Raise (e : exn).
Arguments Ok {A} a.
Arguments Raise {A} e.

Definition bind {A B} (r : result A) (k : A -> result B) : result B :=
  match r with
  | Ok a => k a
  | Raise e => Raise e
  end.

Notation "x <- r ;; k" := (bind r (fun x => k))
  (at level 100, r at next level, right associativity).

(** [str.isspace] on one code point (CPython's [_PyUnicode_IsWhitespace]). *)
Definition isspace (c : N) : bool :=
  ((9 <=? c) && (c <=? 13)) || ((28 <=? c) && (c <=? 32))
  || (c =? 133) || (c =? 160) || (c =? 5760)
  || ((8192 <=? c) && (c <=? 8202))
  || (c =? 8232) || (c =? 8233) || (c =? 8239) || (c =? 8287) || (c =? 12288).

(** [s.lstrip()], [s.rstrip()], [s.strip()] with no argument. *)
Fixpoint lstrip (s : pystr) : pystr :=
  match s with
  | [] => []
  | c :: s' => if isspace c then lstrip s' else s
  end.

Definition rstrip (s : pystr) : pystr := rev (lstrip (rev s)).

Definition strip (s : pystr) : pystr := rstrip (lstrip s).

(** [s.split()] with no argument: the maximal runs of non-whitespace.
    [cur] holds the run being read, last character first. *)
Definition flush (cur : pystr) (acc : list pystr) : list pystr :=
  match cur with
  | [] => acc
  | _ => rev cur :: acc
  end.

Fixpoint split_from (cur : pystr) (s : pystr) : list pystr :=
  match s with
  | [] => flush cur []
  | c :: s' =>
      if isspace c then flush cur (split_from [] s')
      else split_from (c :: cur) s'
  end.

Definition split (s : pystr) : list pystr := split_from [] s.

Definition streq (a b : pystr) : bool := bool_decide (a = b).

(** [s.startswith(p)], used through [s.find(p) == 0]. *)
Fixpoint startswith (p s : pystr) : bool :=
  match p, s with
  | [], _ => true
  | _ :: _, [] => false
  | a :: p', b :: s' => (a =? b) && startswith p' s'
  end.

(** [s.find(sub)]: the lowest index where [sub] occurs, or -1. *)
Fixpoint find_from (sub s : pystr) (i : Z) : Z :=
  if startswith sub s then i
  else match s with
       | [] => (-1)%Z
       | _ :: s' => find_from sub s' (i + 1)%Z
       end.

Definition find (s sub : pystr) : Z := find_from sub s 0%Z.

(** [s[:-1]]: all but the last character; the empty string stays empty. *)
Definition drop_last (s : pystr) : pystr := removelast s.

(** [l[i]] for a non-negative index: [IndexError] out of range. *)
Definition getitem {A} (l : list A) (i : nat) : result A :=
  match l !! i with
  | Some x => Ok x
  | None => Raise IndexError
  end.

(** [l[i] = x] for a non-negative index: [IndexError] out of range. *)
Definition setitem {A} (l : list A) (i : nat) (x : A) : result (list A) :=
  if bool_decide (i < length l)%nat then Ok (<[i := x]> l) else Raise IndexError.

(** [a + b] where [b] may be [None]: concatenating [None] to a [str]
    raises [TypeError]. *)
Definition str_add (a : pystr) (b : option pystr) : result pystr :=
  match b with
  | Some s => Ok (a ++ s)
  | None => Raise TypeError
  end.

End Py.
Import Py.

(** ** Text files

    A file opened in text mode with the default [newline=None] translates
    every CR LF and every lone CR to LF; reading it line by line yields the
    pieces that end after each LF, and a last piece without LF when the text
    does not end in one. *)

Module TextFile.

Fixpoint universal_newlines (s : pystr) : pystr :=
  match s with
  | [] => []
  | c :: s' =>
      if c =? CR then
        LF :: match s' with
              | d :: s'' =>
                  if d =? LF then universal_newlines s''
                  else universal_newlines s'
              | [] => []
              end
      else c :: universal_newlines s'
  end.

Fixpoint lines_from (cur : pystr) (s : pystr) : list pystr :=
  match s with
  | [] => flush cur []
  | c :: s' =>
      if c =? LF then rev (c :: cur) :: lines_from [] s'
      else lines_from (c :: cur) s'
  end.

(** The lines a text-mode file object yields for the stored text [s]. *)
Definition readlines (s : pystr) : list pystr :=
  lines_from [] (universal_newlines s).



End TextFile.
Import TextFile.

(** ** [csv.reader] with the default ([excel]) dialect

    Delimiter [,], quote character the double quote, [doublequote] on, no
    escape character, [skipinitialspace] off, not strict.  The machine is
    the one of CPython's [_csv.c] ([parse_process_char], [Reader_iternext])
    with the states that dialect can reach, and with the limit on the
    length of a field, [csv.field_size_limit()], at its default. *)

Module Csv.

Inductive ParserState : Type :=
| START_RECORD
| START_FIELD
| IN_FIELD
| IN_QUOTED_FIELD
| QUOTE_IN_QUOTED_FIELD
| EAT_CRNL.

(** [field] holds the characters of the field being read, last one first. *)
Record Reader : Type := mkReader {
  state : ParserState;
  fields : list pystr;
  field : pystr
}.

Definition parse_reset : Reader := mkReader START_RECORD [] [].

Definition set_state (s : ParserState) (r : Reader) : Reader :=
  mkReader s (fields r) (field r).

Definition parse_save_field (r : Reader) : Reader :=
  mkReader (state r) (fields r ++ [rev (field r)]) [].

(** The default of [csv.field_size_limit()]. *)
Definition field_limit : N := 131072.

(** [parse_add_char]: [_csv.Error] when the field already has
    [field_limit] characters. *)
Definition parse_add_char (c : N) (r : Reader) : result Reader :=
  if field_limit <=? N.of_nat (length (field r)) then Raise CsvError
  else Ok (mkReader (state r) (fields r) (c :: field r)).

Definition is_newline (c : N) : bool := (c =? LF) || (c =? CR).

(** The character fed to the machine: [None] is the end-of-line mark [EOL]
    sent after the last character of every line. *)
Definition end_of_record (c : option N) (r : Reader) : Reader :=
  set_state (match c with None => START_RECORD | Some _ => EAT_CRNL end)
            (parse_save_field r).

Definition start_field (r : Reader) (c : option N) : result Reader :=
  match c with
  | None => Ok (end_of_record c r)
  | Some ch =>
      if is_newline ch then Ok (end_of_record c r)
      else if ch =? QUOTE then Ok (set_state IN_QUOTED_FIELD r)
      else if ch =? COMMA then Ok (set_state START_FIELD (parse_save_field r))
      else r' <- parse_add_char ch r ;; Ok (set_state IN_FIELD r')
  end.

Definition parse_process_char (r : Reader) (c : option N) : result Reader :=
  match state r with
  | START_RECORD =>
      match c with
      | None => Ok r
      | Some ch =>
          if is_newline ch then Ok (set_state EAT_CRNL r)
          else start_field r c
      end
  | START_FIELD => start_field r c
  | IN_FIELD =>
      match c with
      | None => Ok (end_of_record c r)
      | Some ch =>
          if is_newline ch then Ok (end_of_record c r)
          else if ch =? COMMA then Ok (set_state START_FIELD (parse_save_field r))
          else parse_add_char ch r
      end
  | IN_QUOTED_FIELD =>
      match c with
      | None => Ok r
      | Some ch =>
          if ch =? QUOTE then Ok (set_state QUOTE_IN_QUOTED_FIELD r)
          else parse_add_char ch r
      end
  | QUOTE_IN_QUOTED_FIELD =>
      match c with
      | None => Ok (end_of_record c r)
      | Some ch =>
          if ch =? QUOTE then r' <- parse_add_char ch r ;; Ok (set_state IN_QUOTED_FIELD r')
          else if ch =? COMMA then Ok (set_state START_FIELD (parse_save_field r))
          else if is_newline ch then Ok (end_of_record c r)
          else r' <- parse_add_char ch r ;; Ok (set_state IN_FIELD r')
      end
  | EAT_CRNL =>
      match c with
      | None => Ok (set_state START_RECORD r)
      | Some ch => if is_newline ch then Ok r else Raise CsvError
      end
  end.

Fixpoint feed_chars (r : Reader) (s : pystr) : result Reader :=
  match s with
  | [] => Ok r
  | c :: s' => r' <- parse_process_char r (Some c) ;; feed_chars r' s'
  end.

Definition feed_line (r : Reader) (l : pystr) : result Reader :=
  r' <- feed_chars r l ;; parse_process_char r' None.

Definition at_start (r : Reader) : bool :=
  match state r with START_RECORD => true | _ => false end.

Definition in_quoted (r : Reader) : bool :=
  match state r with IN_QUOTED_FIELD => true | _ => false end.

(** The rows the reader yields over the remaining [lines], and the
    exception that ends the iteration, if one does.  [r] is the machine in
    the middle of a record; a record is complete when the machine is back
    in [START_RECORD] after a line.  At the end of the input an unfinished
    record is yielded when a field was begun or a quote is open. *)
Fixpoint reader_from (r : Reader) (lines : list pystr) : list (list pystr) * option exn :=
  match lines with
  | [] =>
      if negb (bool_decide (field r = [])) || in_quoted r
      then ([fields (parse_save_field r)], None)
      else ([], None)
  | l :: rest =>
      match feed_line r l with
      | Raise e => ([], Some e)
      | Ok r' =>
          if at_start r' then
            let '(rows, e) := reader_from parse_reset rest in
            (fields r' :: rows, e)
          else reader_from r' rest
      end
  end.

Definition reader (lines : list pystr) : list (list pystr) * option exn :=
  reader_from parse_reset lines.

End Csv.
Import Csv.

(** ** The bundle mapping reader *)

(** The local variables of [parsePdbBundleChainIdFile] that live across
    iterations of its [while] loop. *)
Record MapState : Type := mkMapState {
  actualFile : pystr;
  files : list pystr;
  mapChain : gmap pystr pystr;
  mapFile : gmap pystr pystr
}.

Definition map_init : MapState := mkMapState [] [] ∅ ∅.

Definition bundle_tag : pystr := py "pdb-bundle".

(** One iteration of the loop on the line [raw] just read. *)
Definition map_step (st : MapState) (raw : pystr) : result MapState :=
  let line := rstrip (strip raw) in
  if (0 <=? find line bundle_tag)%Z then
    let actual := drop_last line in
    Ok (mkMapState actual (files st ++ [actual]) (mapChain st) (mapFile st))
  else if negb (streq (actualFile st) []) && negb (streq line []) then
    let mapping := split line in
    k <- getitem mapping 1 ;;
    let key := strip k in
    v <- getitem mapping 0 ;;
    let val := strip v in
    Ok (mkMapState (actualFile st) (files st)
          (<[key := val]> (mapChain st)) (<[key := actualFile st]> (mapFile st)))
  else Ok st.

(** [while line:] over the successive results of [fp.readline()]; the
    empty string, which [readline] returns at the end of the file, ends
    the loop. *)
Fixpoint map_loop (st : MapState) (lines : list pystr) : result MapState :=
  match lines with
  | [] => Ok st
  | raw :: rest =>
      if streq raw [] then Ok st
      else st' <- map_step st raw ;; map_loop st' rest
  end.

(** [parsePdbBundleChainIdFile] on the lines of the opened file: the pair
    [(mapFile, mapChain)]. *)
Definition parsePdbBundleChainIdFile (lines : list pystr)
  : result (gmap pystr pystr * gmap pystr pystr) :=
  st <- map_loop map_init lines ;; Ok (mapFile st, mapChain st).

(** ** The chain remapper *)

Definition chars (s : pystr) : list pystr := map (fun c => [c]) s.

Definition is_atom_record (s : pystr) : bool :=
  (find s (py "ATOM") =? 0)%Z || (find s (py "HETATM") =? 0)%Z.

(** The three branches on [len(chain)] applied to [newLine]. *)
Definition rewrite_chain (chain : pystr) (newLine : list pystr) : result (list pystr) :=
  if bool_decide (2 < length chain)%nat then
    setitem (newLine ++ chars chain) 21 (py "%")
  else if bool_decide (1 < length chain)%nat then
    c0 <- getitem chain 0 ;;
    l1 <- setitem newLine 20 [c0] ;;
    c1 <- getitem chain 1 ;;
    setitem l1 21 [c1]
  else setitem newLine 21 chain.

(** The body of the [for] loop on one row of the csv reader, whose first
    field [line[0]] is all it looks at: what is written to the output file,
    if anything. *)
Definition translate_record (chain : pystr) (newChain : option pystr) (f : pystr)
  : result (option pystr) :=
  if is_atom_record f then
    let newLine := chars f in
    c <- getitem newLine 21 ;;
    if bool_decide (Some c = newChain) then
      l <- rewrite_chain chain newLine ;;
      Ok (Some (concat l ++ [LF]))
    else Ok None
  else Ok (Some (f ++ [LF])).

Definition translate_row (chain : pystr) (newChain : option pystr) (line : list pystr)
  : result (option pystr) :=
  f <- getitem line 0 ;;
  translate_record chain newChain f.

(** What a run leaves behind: the text written to the output file and the
    exception that ended the run, if one did. *)
Record Outcome : Type := mkOutcome {
  written : pystr;
  raised : option exn
}.

Fixpoint write_rows (chain : pystr) (newChain : option pystr)
    (rows : list (list pystr)) (pending : option exn) (out : pystr) : Outcome :=
  match rows with
  | [] => mkOutcome out pending
  | row :: rest =>
      match translate_row chain newChain row with
      | Raise e => mkOutcome out (Some e)
      | Ok w => write_rows chain newChain rest pending (out ++ default [] w)
      end
  end.

(** The [with] block of [parsePdbAndTranslateChain] on the lines of the
    input file: the rows are read by [csv.reader] and handled one by one;
    an exception of the reader surfaces after the rows before it. *)
Definition translate_lines (lines : list pystr) (chain : pystr) (newChain : option pystr)
  : Outcome :=
  let '(rows, e) := reader lines in
  write_rows chain newChain rows e [].

(** ** Files and the [PdbFile] object *)

Abbreviation FS := (gmap pystr pystr).

Record PdbFile : Type := mkPdbFile {
  dir : pystr;
  pdbcode : pystr;
  chain : option pystr;
  atom : option pystr;
  out_file : pystr
}.

Definition set_out_file (p : pystr) (self : PdbFile) : PdbFile :=
  mkPdbFile (dir self) (pdbcode self) (chain self) (atom self) p.

(** A computation on the file system that may raise. *)
Definition IO (A : Type) : Type := FS -> FS * result A.

Definition io_ret {A} (a : A) : IO A := fun fs => (fs, Ok a).

Definition io_lift {A} (r : result A) : IO A := fun fs => (fs, r).

Definition io_bind {A B} (m : IO A) (k : A -> IO B) : IO B :=
  fun fs =>
    match m fs with
    | (fs', Ok a) => k a fs'
    | (fs', Raise e) => (fs', Raise e)
    end.

Notation "x <~ m ;; k" := (io_bind m (fun x => k))
  (at level 100, m at next level, right associativity).

(** [s.replace(old, new)] for a non-empty [old]: every occurrence, left to
    right, without overlap.  [skip] counts the characters of a matched
    occurrence still to pass over. *)
Fixpoint replace_from (old new : pystr) (skip : nat) (s : pystr) : pystr :=
  match s with
  | [] => []
  | c :: s' =>
      match skip with
      | S k => replace_from old new k s'
      | O =>
          if startswith old s then new ++ replace_from old new (length old - 1) s'
          else c :: replace_from old new 0 s'
      end
  end.

Definition replace (s old new : pystr) : pystr := replace_from old new 0 s.

(** [open(path)] for reading. *)
Definition open_read (path : pystr) : IO pystr :=
  fun fs =>
    match fs !! path with
    | Some text => (fs, Ok text)
    | None => (fs, Raise FileNotFoundError)
    end.

(** [parsePdbAndTranslateChain(self, pdbFileIn, chain, newChain)]: the
    output path is derived from [self.out_file] and [self.chain]; the input
    is opened, the output is opened for writing (and so emptied) before the
    first line is read, and what was written stays when the loop raises. *)
Definition parsePdbAndTranslateChain (self : PdbFile) (pdbFileIn chain0 : pystr)
    (newChain : option pystr) : IO PdbFile :=
  suffix <~ io_lift (str_add (py "_") (chain self)) ;;
  let self' := set_out_file (replace (out_file self) (py ".pdb") (suffix ++ py ".pdb")) self in
  _ <~ open_read pdbFileIn ;;
  fun fs =>
    let fs1 := <[out_file self' := []]> fs in
    let o := translate_lines (readlines (default [] (fs1 !! pdbFileIn))) chain0 newChain in
    (<[out_file self' := written o]> fs1,
     match raised o with
     | None => Ok self'
     | Some e => Raise e
     end).

(** ** The retrieval orchestrator *)

Section Download.

(** The collaborators outside the repository: the two HTTP fetches (the
    second one with the unpacking of the tar archive into member names and
    texts), the Bio.PDB filters, [glob.glob] and [str.lower]. *)
Variable fetch_view : pystr -> result pystr.
Variable fetch_bundle : pystr -> result (list (pystr * pystr)).
Variable filter_by_chain : PdbFile -> IO PdbFile.
Variable filter_by_atom : PdbFile -> IO PdbFile.
Variable glob_bundle : pystr -> pystr -> FS -> list pystr.
Variable lower : pystr -> pystr.

(** [tar.extractall(self.dir)]. *)
Definition extractall (d : pystr) (members : list (pystr * pystr)) : IO unit :=
  fun fs =>
    (fold_left (fun acc m => <[d ++ py "/" ++ fst m := snd m]> acc) members fs, Ok tt).

(** [shutil.move(src, dst)]. *)
Definition move (src dst : pystr) : IO unit :=
  text <~ open_read src ;;
  fun fs => (<[dst := text]> (delete src fs), Ok tt).

(** [d.get(k)] where the key may be [None], which no table holds. *)
Definition dict_get (m : gmap pystr pystr) (k : option pystr) : option pystr :=
  match k with
  | Some s => m !! s
  | None => None
  end.

(** The [try] block of [download]. *)
Definition download_direct (self : PdbFile) : IO PdbFile :=
  html <~ io_lift (fetch_view (pdbcode self)) ;;
  _ <~ (fun fs => (<[out_file self := html]> fs, Ok tt)) ;;
  match chain self with
  | Some _ => filter_by_chain self
  | None => io_ret self
  end.

(** The handler of [urllib.error.HTTPError]: the bundle fallback. *)
Definition download_bundle (self : PdbFile) : IO PdbFile :=
  _ <~ io_lift (str_add (pdbcode self ++ py " ") (chain self)) ;;
  members <~ io_lift (fetch_bundle (pdbcode self)) ;;
  _ <~ extractall (dir self) members ;;
  text <~ open_read (dir self ++ py "/" ++ lower (pdbcode self) ++ py "-chain-id-mapping.txt") ;;
  tables <~ io_lift (parsePdbBundleChainIdFile (readlines text)) ;;
  let '(mapFile, mapChain) := tables in
  let newChain := dict_get mapChain (chain self) in
  pdbBundleFile <~ io_lift (str_add (dir self ++ py "/") (dict_get mapFile (chain self))) ;;
  self1 <~ (if bool_decide (newChain <> chain self) then
              parsePdbAndTranslateChain self pdbBundleFile (default [] (chain self)) newChain
            else
              src <~ io_lift (str_add (dir self ++ py "/") (dict_get mapFile (chain self))) ;;
              _ <~ move src (out_file self) ;;
              filter_by_chain self) ;;
  fun fs =>
    (fold_left (fun acc p => delete p acc) (glob_bundle (dir self) (pdbcode self) fs) fs,
     Ok self1).

(** [PdbFile.download]: the path of the resulting file, or the exception
    that reaches the caller.  [makedirs] only prepares the directory and
    its [OSError] is discarded. *)
Definition download (self0 : PdbFile) : IO pystr :=
  let self := set_out_file (dir self0 ++ py "/" ++ pdbcode self0 ++ py ".pdb") self0 in
  fun fs =>
    let '(fs1, r) :=
      match download_direct self fs with
      | (fs', Raise HTTPError) => download_bundle self fs'
      | other => other
      end in
    match r with
    | Raise e => (fs1, Raise e)
    | Ok self1 =>
        match atom self1 with
        | Some a =>
            if bool_decide (a = []) then (fs1, Ok (out_file self1))
            else match filter_by_atom self1 fs1 with
                 | (fs2, Ok self2) => (fs2, Ok (out_file self2))
                 | (fs2, Raise e) => (fs2, Raise e)
                 end
        | None => (fs1, Ok (out_file self1))
        end
    end.

End Download.

(** ** The vocabulary of the properties *)

(** *** Lines and columns *)

(** The character in column [k] of a line, columns counted from 1. *)
Definition column (k : nat) (s : pystr) : option N :=
  match k with
  | O => None
  | S i => s !! i
  end.

(** The line without its terminator. *)
Definition body_of (l : pystr) : pystr :=
  match rev l with
  | c :: r => if c =? LF then rev r else l
  | [] => l
  end.


(** What [split] yields: non-empty and free of whitespace. *)
Definition token (t : pystr) : Prop :=
  t <> [] /\ forallb (fun c => negb (isspace c)) t = true.

(** *** Lines under the csv reader *)

(** A character the csv reader keeps inside an unquoted field. *)
Definition field_char (c : N) : bool := negb (is_newline c || (c =? COMMA)).

(** A line the csv reader hands over whole, as the only field of its own
    row: not blank, no comma, no quote in first position, no more
    characters than a field may have, and the terminator, if any, at the
    end. *)
Definition plain_body (b : pystr) : bool :=
  match b with
  | [] => false
  | c :: _ => negb (c =? QUOTE) && forallb field_char b
  end && (N.of_nat (length b) <=? field_limit).

Definition plain_line (l : pystr) : bool := plain_body (body_of l).

(** The lines [pre] end where a csv record ends: the machine is back in its
    start state after the last of them. *)
Fixpoint boundary_from (r : Reader) (pre : list pystr) : bool :=
  match pre with
  | [] => at_start r
  | l :: rest =>
      match feed_line r l with
      | Raise _ => false
      | Ok r' => boundary_from (if at_start r' then parse_reset else r') rest
      end
  end.

Definition record_boundary (pre : list pystr) : bool := boundary_from parse_reset pre.



(** The machine is where a fresh call of the reader's [next] finds it, or in
    the middle of a record. *)
Definition in_step (r : Reader) : Prop := r = parse_reset \/ at_start r = false.

(** *** Mapping files, in the words of the format description *)

(** The line as the reader looks at it. *)
Definition clean (raw : pystr) : pystr := rstrip (strip raw).

Definition is_header (raw : pystr) : bool := (0 <=? find (clean raw) bundle_tag)%Z.

Definition is_blank (raw : pystr) : bool := streq (clean raw) [].

(** The member-file name a header line gives: the line minus its final
    character. *)
Definition member_name (raw : pystr) : pystr := drop_last (clean raw).

(** A data line [<legacy_code> <requested_code>]. *)
Definition is_data (raw leg req : pystr) : Prop :=
  is_header raw = false /\ split (clean raw) = [leg; req].

Definition lists_code (req raw : pystr) : bool :=
  negb (is_header raw) &&
  match split (clean raw) with
  | [_; r] => streq r req
  | _ => false
  end.

Definition mapping_line (raw : pystr) : Prop :=
  raw <> [] /\
  (is_header raw = true \/ is_blank raw = true \/ exists leg req, is_data raw leg req).

(** A valid mapping file: a sequence of blocks, each a header line followed
    by data lines and blank lines. *)
Definition valid_mapping (lines : list pystr) : Prop :=
  Forall mapping_line lines /\
  match lines with
  | [] => True
  | h :: _ => is_header h = true
  end.

(** The requested code [req] is listed with legacy code [leg] in the block
    of the member file [mf]: on a data line after that block's header, with
    no other header in between. *)
Definition listed (lines : list pystr) (req leg mf : pystr) : Prop :=
  exists pre h mid d post,
    lines = pre ++ h :: mid ++ d :: post /\
    is_header h = true /\ mf = member_name h /\
    Forall (fun l => is_header l = false) mid /\
    is_data d leg req.

(** The same, for the last line of the file that lists [req]. *)
Definition last_listed (lines : list pystr) (req leg mf : pystr) : Prop :=
  exists pre h mid d post,
    lines = pre ++ h :: mid ++ d :: post /\
    is_header h = true /\ mf = member_name h /\
    Forall (fun l => is_header l = false) mid /\
    is_data d leg req /\
    Forall (fun l => lists_code req l = false) post.

(** The tables hold every listing of the file and nothing else. *)
Definition tables_hold_every_listing (lines : list pystr) : Prop :=
  exists mF mC,
    parsePdbBundleChainIdFile lines = Ok (mF, mC) /\
    (forall req leg mf, listed lines req leg mf ->
       mF !! req = Some mf /\ mC !! req = Some leg) /\
    (forall req, is_Some (mF !! req) \/ is_Some (mC !! req) ->
       exists leg mf, listed lines req leg mf).

(** The tables hold the last listing of every code and nothing else. *)
Definition tables_hold_last_listing (lines : list pystr) : Prop :=
  exists mF mC,
    parsePdbBundleChainIdFile lines = Ok (mF, mC) /\
    (forall req leg mf, last_listed lines req leg mf ->
       mF !! req = Some mf /\ mC !! req = Some leg) /\
    (forall req, is_Some (mF !! req) \/ is_Some (mC !! req) ->
       exists leg mf, last_listed lines req leg mf).

(** The member file of the block the reader is in after the lines [seen],
    having started in the block of [af]. *)
Definition current (af : pystr) (seen : list pystr) : pystr :=
  fold_left (fun cur l => if is_header l then member_name l else cur) seen af.

(** *** Atom records, in the words of the remapper's description *)

(** The record is kept: something is written for it. *)
Definition kept (chain : pystr) (newChain : option pystr) (f : pystr) : Prop :=
  exists w, translate_record chain newChain f = Ok (Some w).

(** Keep-versus-drop is decided by the character in column [k]. *)
Definition decided_by_column (k : nat) : Prop :=
  forall chain legacy f,
    is_atom_record f = true -> (22 <= length f)%nat ->
    (kept chain (Some [legacy]) f <-> column k f = Some legacy).

(** A one-character code is written into column [k] and nowhere else. *)
Definition one_char_code_in_column (k : nat) : Prop :=
  forall x legacy f w,
    is_atom_record f = true ->
    translate_record [x] (Some [legacy]) f = Ok (Some w) ->
    column k w = Some x /\
    forall j, j <> k -> column j w = column j (f ++ [LF]).

(** A two-character code is written into columns [k] and [k + 1] and
    nowhere else. *)
Definition two_char_code_in_columns (k : nat) : Prop :=
  forall x y legacy f w,
    is_atom_record f = true ->
    translate_record [x; y] (Some [legacy]) f = Ok (Some w) ->
    column k w = Some x /\ column (S k) w = Some y /\
    forall j, j <> k -> j <> S k -> column j w = column j (f ++ [LF]).

(** The chain column of the record [b] holds the legacy code [newChain]. *)
Definition chain_matches (newChain : option pystr) (b : pystr) : bool :=
  match column 22 b with
  | Some c => bool_decide (Some [c] = newChain)
  | None => false
  end.

(** The record [b] with the requested code [chain] in place of the legacy
    code: the sentinel in column 22 and the code after the record for three
    characters and more, the code in columns 21 and 22 for two, in column 22
    for one; an empty code leaves column 22 out.  Column [k] is index
    [k - 1] of the list. *)
Definition remapped (chain b : pystr) : pystr :=
  match chain with
  | [] => take 21 b ++ drop 22 b
  | [x] => <[21%nat := x]> b
  | [x; y] => <[21%nat := y]> (<[20%nat := x]> b)
  | _ => <[21%nat := PERCENT]> b ++ chain
  end.

(** What one line of the input adds to the output. *)
Definition contribution (chain : pystr) (newChain : option pystr) (l : pystr) : pystr :=
  let b := body_of l in
  if is_atom_record b then
    if chain_matches newChain b then remapped chain b ++ [LF] else []
  else b ++ [LF].

(** An atom record too short to have a chain column. *)
Definition short_atom_record (l : pystr) : bool :=
  is_atom_record (body_of l) && bool_decide (length (body_of l) < 22)%nat.

(** The outcome of a run that handles one record, with result [r], and
    then goes on to the outcome [o]. *)
Definition then_outcome (r : result (option pystr)) (o : Outcome) : Outcome :=
  match r with
  | Raise e => mkOutcome [] (Some e)
  | Ok w => mkOutcome (default [] w ++ written o) (raised o)
  end.

(** The path of the remapped file, for the chain [c] held by [self]. *)
Definition remapped_path (self : PdbFile) (c : pystr) : pystr :=
  replace (out_file self) (py ".pdb") ((py "_" ++ c) ++ py ".pdb").

(** *** A bundle to run the code on *)

(** A retrieval that ends in the bundle fallback: the entry [1abc] is not
    served as one file, its bundle holds one member file with the chain
    [B], and the chain [Z] is asked for. *)
Module Scenario.

Definition mapping_text : pystr := ln "1abc-pdb-bundle1.pdb:" ++ ln "A B".

Definition members : list (pystr * pystr) :=
  [(py "1abc-chain-id-mapping.txt", mapping_text);
   (py "1abc-pdb-bundle1.pdb", ln "ATOM      1  N   MET A   1")].

Definition fetch_view (code : pystr) : result pystr := Raise HTTPError.

Definition fetch_bundle (code : pystr) : result (list (pystr * pystr)) := Ok members.

Definition filter (self : PdbFile) : IO PdbFile := io_ret self.

Definition glob_bundle (d code : pystr) (fs : FS) : list pystr := [].

Definition lower (s : pystr) : pystr := s.

Definition request_Z : PdbFile :=
  mkPdbFile (py "/tmp") (py "1abc") (Some (py "Z")) None [].

(** The object as [download] hands it to the remapper, for the chains [B]
    and [A], and the member file of the bundle. *)
Definition request_B : PdbFile :=
  mkPdbFile (py "/tmp") (py "1abc") (Some (py "B")) None (py "/tmp/1abc.pdb").

Definition request_A : PdbFile :=
  mkPdbFile (py "/tmp") (py "1abc") (Some (py "A")) None (py "/tmp/1abc.pdb").

Definition member : pystr := py "/tmp/1abc-pdb-bundle1.pdb".

(** A member file with two chains, whose last line has no terminator, and
    one with an atom line cut short. *)
Definition two_chain_text : pystr :=
  ln "HEADER    BUNDLE" ++ ln "ATOM      1  N   MET A   1" ++
  ln "ATOM      2  N   MET C   1" ++ py "END".


End Scenario.

(** ** The older module: [filter_by_chain] on the text of the file

    [PdbFile.filter_by_chain] of src/fetchRcsbChainInfo.py reads the file
    line by line, without the csv reader, and writes the lines it keeps.
    Both files are open in text mode: what is read has its line ends as
    LF, and what is written has every LF replaced by [os.linesep]. *)

Module Legacy.

(** The test on one line, terminator included: whether it is written. *)
Definition keeps (chain line : pystr) : result bool :=
  if startswith (py "ATOM") line || startswith (py "TER") line then
    c <- getitem line 21 ;;
    Ok (streq [c] chain)
  else Ok true.

Section Platform.

(** [os.linesep] of the platform: LF, or CR LF. *)
Variable linesep : pystr.

(** What [outfile.write(s)] appends to a file open in text mode. *)
Definition write_text (s : pystr) : pystr :=
  flat_map (fun c => if c =? LF then linesep else [c]) s.

(** The [for] loop over the lines of the input file. *)
Fixpoint filter_lines (chain : pystr) (lines : list pystr) (out : pystr) : Outcome :=
  match lines with
  | [] => mkOutcome out None
  | line :: rest =>
      match keeps chain line with
      | Raise e => mkOutcome out (Some e)
      | Ok true => filter_lines chain rest (out ++ write_text line)
      | Ok false => filter_lines chain rest out
      end
  end.

(** [filter_by_chain(pdbfile, chain)]: the output file is opened for
    writing, and so created or emptied, before the input file is opened. *)
Definition filter_by_chain (pdbfile chain : pystr) : IO pystr :=
  let pdbfile_out := replace pdbfile (py ".pdb") ((py "_" ++ chain) ++ py ".pdb") in
  fun fs =>
    let fs1 := <[pdbfile_out := []]> fs in
    match fs1 !! pdbfile with
    | None => (fs1, Raise FileNotFoundError)
    | Some text =>
        let o := filter_lines chain (readlines text) [] in
        (<[pdbfile_out := written o]> fs1,
         match raised o with
         | None => Ok pdbfile_out
         | Some e => Raise e
         end)
    end.

End Platform.

End Legacy.

(** ** The searches on the PDBe index: what is made of the documents

    [IdenticalChains], [UniqueChains] and [ReleasedPDBs] send one query and
    then loop over [response.documents], a list of dictionaries.  A
    document is modelled by the two fields the loops read, each present or
    not: [pdb_id], a string, and [chain_id], which the index holds as a
    list of strings.  The query itself is outside the model. *)

Module Solr.

Inductive error : Type := KeyError | IndexError.

Inductive answer (A : Type) : Type :=
| Done (a : A)
| Raised (e : error).
Arguments Done {A} a.
Arguments Raised {A} e.

Record Document : Type := mkDocument {
  pdb_id : option pystr;
  chain_id : option (list pystr)
}.

(** [document[key]]: [KeyError] when the document has no such field. *)
Definition item {A} (field : option A) : answer A :=
  match field with
  | Some v => Done v
  | None => Raised KeyError
  end.

(** [a <= b] on strings: the order of the code points, a prefix first. *)
Fixpoint str_leb (a b : pystr) : bool :=
  match a, b with
  | [], _ => true
  | _ :: _, [] => false
  | c :: a', d :: b' =>
      if c <? d then true else if c =? d then str_leb a' b' else false
  end.

(** [sorted(l)] for a list of strings. *)
Fixpoint insert_sorted (x : pystr) (l : list pystr) : list pystr :=
  match l with
  | [] => [x]
  | y :: r => if str_leb x y then x :: l else y :: insert_sorted x r
  end.

Definition sorted (l : list pystr) : list pystr := fold_right insert_sorted [] l.

(** [l[0]]. *)
Definition first {A} (l : list A) : answer A :=
  match l with
  | x :: _ => Done x
  | [] => Raised IndexError
  end.

(** The loop of [IdenticalChains.__init__]: the sorted chains of the first
    document that lists [chain]; the empty list when there is none. *)
Fixpoint identical_chains (chain : pystr) (documents : list Document)
  : answer (list pystr) :=
  match documents with
  | [] => Done []
  | d :: rest =>
      match item (chain_id d) with
      | Raised e => Raised e
      | Done ids =>
          if bool_decide (chain ∈ ids) then Done (sorted ids)
          else identical_chains chain rest
      end
  end.

(** The loop of [UniqueChains.__init__]: of each document the first of its
    sorted chains. *)
Fixpoint unique_chains (documents : list Document) (results : list pystr)
  : answer (list pystr) :=
  match documents with
  | [] => Done results
  | d :: rest =>
      match item (chain_id d) with
      | Raised e => Raised e
      | Done ids =>
          match first (sorted ids) with
          | Raised e => Raised e
          | Done c => unique_chains rest (results ++ [c])
          end
      end
  end.

(** An entry of the results of [ReleasedPDBs]: a tuple of the entry's code
    and a chain, or the code alone. *)
Inductive entry : Type :=
| Pair (pid chain : pystr)
| Code (pid : pystr).

#[global] Instance entry_eq_dec : EqDecision entry.
Proof. solve_decision. Defined.

(** The loop of [ReleasedPDBs.__init__]. *)
Fixpoint released_pdbs (uniq_chains : bool) (documents : list Document)
    (results : list entry) : answer (list entry) :=
  match documents with
  | [] => Done results
  | d :: rest =>
      match item (pdb_id d) with
      | Raised e => Raised e
      | Done pid =>
          match item (chain_id d) with
          | Raised e => Raised e
          | Done ids =>
              if uniq_chains then
                match first (sorted ids) with
                | Raised e => Raised e
                | Done c => released_pdbs uniq_chains rest (results ++ [Pair pid c])
                end
              else if bool_decide (Code pid ∈ results)
                   then released_pdbs uniq_chains rest results
                   else released_pdbs uniq_chains rest (results ++ [Code pid])
          end
      end
  end.

End Solr.

(** ** The vocabulary of the further properties *)

(** The order of the strings, as a relation. *)
Definition str_le (a b : pystr) : Prop := Solr.str_leb a b = true.

(** [c] is the least of the strings [l]. *)
Definition least (c : pystr) (l : list pystr) : Prop :=
  c ∈ l /\ Forall (str_le c) l.

(** A document that has its chains, and lists at least one. *)
Definition has_chains (d : Solr.Document) : Prop :=
  exists ids, Solr.chain_id d = Some ids /\ ids <> [].

(** A document that has its chains, [chain] not among them. *)
Definition lacks_chain (chain : pystr) (d : Solr.Document) : Prop :=
  exists ids, Solr.chain_id d = Some ids /\ chain ∉ ids.

(** A document with both fields. *)
Definition has_fields (d : Solr.Document) : Prop :=
  is_Some (Solr.pdb_id d) /\ is_Some (Solr.chain_id d).

(** The least chain of a document. *)
Definition least_chain_of (d : Solr.Document) (c : pystr) : Prop :=
  exists ids, Solr.chain_id d = Some ids /\ least c ids.

(** The entry of a document in the results of [ReleasedPDBs] with unique
    chains: its code and its least chain. *)
Definition pair_of (d : Solr.Document) (e : Solr.entry) : Prop :=
  exists pid c, Solr.pdb_id d = Some pid /\ least_chain_of d c /\ e = Solr.Pair pid c.












(** Inputs of the older [filter_by_chain]: a file of two chains whose last
    line has no terminator, the same with CR LF line ends, and one with a
    bare TER line. *)
Module LegacyScenario.

Definition path : pystr := py "/tmp/1abc.pdb".

Definition two_chain_text : pystr :=
  ln "HEADER    BUNDLE, PART 1" ++ ln "ATOM      1  N   MET A   1" ++
  ln "ATOM      2  N   MET C   1" ++ ln "TER       3      MET C   1" ++ py "END".




End LegacyScenario.

(** Documents of the index: two entities of one entry, an entity of
    another entry, and a document that lists no chain. *)
Module SolrScenario.

Definition doc1 : Solr.Document :=
  Solr.mkDocument (Some (py "2jlo")) (Some [py "C"; py "A"; py "B"]).

Definition doc2 : Solr.Document :=
  Solr.mkDocument (Some (py "2jlo")) (Some [py "E"; py "D"]).

Definition doc3 : Solr.Document :=
  Solr.mkDocument (Some (py "1j85")) (Some [py "AA"; py "A"]).

Definition no_chain : Solr.Document :=
  Solr.mkDocument (Some (py "9xyz")) (Some []).

End SolrScenario.

(** * The runtime model on small inputs *)

Example strip_example : strip (py "  A B " ++ [LF]) = py "A B".
Proof. reflexivity. Qed.

Example split_example : split (py "   A      AA" ++ [LF]) = [py "A"; py "AA"].
Proof. reflexivity. Qed.

Example find_example :
  find (py "1abc-pdb-bundle1.pdb:") (py "pdb-bundle") = 5%Z /\
  find (py "1abc.pdb1") (py "pdb-bundle") = (-1)%Z.
Proof. split; reflexivity. Qed.

Example replace_example :
  replace (py "/tmp/1abc.pdb") (py ".pdb") (py "_B.pdb") = py "/tmp/1abc_B.pdb".
Proof. reflexivity. Qed.

Example readlines_example :
  readlines (py "ab" ++ [CR; LF] ++ py "cd" ++ [CR] ++ py "e" ++ [LF; LF] ++ py "x") =
    [ln "ab"; ln "cd"; ln "e"; ln ""; py "x"].
Proof. reflexivity. Qed.

(** Rows of the csv reader: a comma separates fields, a blank line gives an
    empty row, a quote at the start of a field opens a field that runs over
    the line ends up to the closing quote. *)
Example reader_example :
  reader [ln "REMARK a,b"; ln ""; py "x," ++ [QUOTE] ++ ln "abc"; ln "ATOM";
          [QUOTE] ++ ln ",z"; py "last"] =
    ([[py "REMARK a"; py "b"]; [];
      [py "x"; py "abc" ++ [LF] ++ py "ATOM" ++ [LF]; py "z"];
      [py "last"]], None).
Proof. reflexivity. Qed.

(** * Facts about the string primitives *)

Section StringFacts.

Lemma forallb_rev {A} (p : A -> bool) (l : list A) :
  forallb p (rev l) = forallb p l.
Proof.
  induction l as [|a l IH]; [reflexivity|].
  simpl. rewrite forallb_app, IH. simpl.
  rewrite andb_true_r. apply andb_comm.
Qed.

Lemma startswith_inv (p s : pystr) :
  startswith p s = true -> exists t, s = p ++ t.
Proof.
  revert s. induction p as [|a p IH]; intros s H.
  - exists s. reflexivity.
  - destruct s as [|b s]; simpl in H; [discriminate|].
    apply andb_true_iff in H as [Hab Hps].
    apply N.eqb_eq in Hab. subst b.
    destruct (IH s Hps) as [t ->]. exists t. reflexivity.
Qed.

Lemma startswith_length (p s : pystr) :
  startswith p s = true -> (length p <= length s)%nat.
Proof.
  intros H. destruct (startswith_inv p s H) as [t ->].
  rewrite length_app. lia.
Qed.

Lemma find_from_range (sub s : pystr) (i : Z) :
  find_from sub s i = (-1)%Z \/ (i <= find_from sub s i)%Z.
Proof.
  revert i. induction s as [|c s IH]; intros i; simpl.
  - destruct (startswith sub []); [right; lia | left; reflexivity].
  - destruct (startswith sub (c :: s)); [right; lia|].
    destruct (IH (i + 1)%Z) as [->|H]; [left; reflexivity | right; lia].
Qed.

(** [s.find(p) == 0] says that [s] starts with [p]. *)
Lemma find_zero (s p : pystr) : (find s p =? 0)%Z = startswith p s.
Proof.
  unfold find. destruct s as [|c s]; simpl.
  - destruct (startswith p []); reflexivity.
  - destruct (startswith p (c :: s)); [reflexivity|].
    destruct (find_from_range p s (0 + 1)) as [->|H]; [reflexivity|].
    apply Z.eqb_neq. lia.
Qed.

Lemma find_from_found (sub s : pystr) (i : Z) :
  (0 <= i)%Z -> (0 <= find_from sub s i)%Z -> (length sub <= length s)%nat.
Proof.
  revert i. induction s as [|c s IH]; intros i Hi; simpl.
  - destruct (startswith sub []) eqn:E; [|lia].
    intros _. apply startswith_length in E. exact E.
  - destruct (startswith sub (c :: s)) eqn:E.
    + intros _. apply startswith_length in E. exact E.
    + intros H. specialize (IH (i + 1)%Z ltac:(lia) H). simpl. lia.
Qed.

(** A string in which [sub] is found is at least as long as [sub]. *)
Lemma find_found_length (s sub : pystr) :
  (0 <= find s sub)%Z -> (length sub <= length s)%nat.
Proof. apply find_from_found. lia. Qed.

Lemma is_atom_record_startswith (f : pystr) :
  is_atom_record f = startswith (py "ATOM") f || startswith (py "HETATM") f.
Proof. unfold is_atom_record. rewrite !find_zero. reflexivity. Qed.

Lemma lstrip_nonspace (c : N) (s : pystr) :
  isspace c = false -> lstrip (c :: s) = c :: s.
Proof. intros H. simpl. rewrite H. reflexivity. Qed.

Lemma rstrip_nonspace (s : pystr) (c : N) :
  isspace c = false -> rstrip (s ++ [c]) = s ++ [c].
Proof.
  intros H. unfold rstrip. rewrite rev_app_distr. simpl.
  rewrite H. simpl. rewrite rev_involutive. reflexivity.
Qed.

(** Stripping changes nothing in a non-empty string without
    whitespace. *)
Lemma strip_token (t : pystr) :
  t <> [] -> forallb (fun c => negb (isspace c)) t = true -> strip t = t.
Proof.
  intros Hne Hall. unfold strip.
  destruct t as [|c t]; [congruence|].
  simpl in Hall. apply andb_true_iff in Hall as [Hc Ht].
  apply negb_true_iff in Hc.
  rewrite (lstrip_nonspace c t Hc).
  destruct (exists_last (l := c :: t) ltac:(discriminate)) as [u [d Hu]].
  rewrite Hu. apply rstrip_nonspace.
  assert (Hall : forallb (fun c => negb (isspace c)) (c :: t) = true).
  { simpl. rewrite Hc, Ht. reflexivity. }
  rewrite Hu, forallb_app in Hall. apply andb_true_iff in Hall as [_ Hd].
  simpl in Hd. rewrite andb_true_r in Hd. apply negb_true_iff in Hd. exact Hd.
Qed.

Lemma flush_tokens (cur : pystr) (acc : list pystr) :
  forallb (fun c => negb (isspace c)) cur = true ->
  Forall token acc -> Forall token (flush cur acc).
Proof.
  intros Hcur Hacc. destruct cur as [|c cur]; simpl; [exact Hacc|].
  constructor; [|exact Hacc]. split.
  - intros E. apply (f_equal (@length N)) in E.
    rewrite length_app in E. simpl in E. lia.
  - rewrite forallb_app. rewrite forallb_rev. simpl in *.
    apply andb_true_iff in Hcur as [Hc Hcur]. rewrite Hcur, Hc. reflexivity.
Qed.

Lemma split_from_tokens (s cur : pystr) :
  forallb (fun c => negb (isspace c)) cur = true ->
  Forall token (split_from cur s).
Proof.
  revert cur. induction s as [|c s IH]; intros cur Hcur; simpl.
  - apply flush_tokens; [exact Hcur | constructor].
  - destruct (isspace c) eqn:E.
    + apply flush_tokens; [exact Hcur | apply IH; reflexivity].
    + apply IH. simpl. rewrite E, Hcur. reflexivity.
Qed.

Lemma split_tokens (s : pystr) : Forall token (split s).
Proof. apply split_from_tokens. reflexivity. Qed.

Lemma lstrip_decomp (s : pystr) :
  exists ws, s = ws ++ lstrip s /\ forallb isspace ws = true.
Proof.
  induction s as [|c s [ws [E H]]]; [exists []; split; reflexivity|].
  simpl. destruct (isspace c) eqn:Ec.
  - exists (c :: ws). simpl. rewrite Ec, H. split; [f_equal; exact E | reflexivity].
  - exists []. split; reflexivity.
Qed.

Lemma rstrip_decomp (s : pystr) :
  exists ws, s = rstrip s ++ ws /\ forallb isspace ws = true.
Proof.
  destruct (lstrip_decomp (rev s)) as [ws [E H]].
  exists (rev ws). rewrite forallb_rev. split; [|exact H].
  unfold rstrip. rewrite <- rev_app_distr, <- E, rev_involutive. reflexivity.
Qed.

Lemma split_leading (ws s : pystr) :
  forallb isspace ws = true -> split (ws ++ s) = split s.
Proof.
  induction ws as [|c ws IH]; intros H; [reflexivity|].
  simpl in H. apply andb_true_iff in H as [Hc Hws].
  unfold split in *. simpl. rewrite Hc. simpl. apply IH. exact Hws.
Qed.

Lemma split_from_trailing (s ws cur : pystr) :
  forallb isspace ws = true -> split_from cur (s ++ ws) = split_from cur s.
Proof.
  intros H. revert cur. induction s as [|c s IH]; intros cur; simpl.
  - revert cur. induction ws as [|w ws IHw]; intros cur; [reflexivity|].
    simpl in H. apply andb_true_iff in H as [Hw Hws].
    simpl. rewrite Hw. rewrite (IHw Hws []). reflexivity.
  - destruct (isspace c); [rewrite IH; reflexivity | apply IH].
Qed.

(** Splitting ignores the whitespace at both ends. *)
Lemma split_strip (s : pystr) : split (rstrip (strip s)) = split s.
Proof.
  unfold strip, split.
  destruct (rstrip_decomp (rstrip (lstrip s))) as [w1 [E1 H1]].
  destruct (rstrip_decomp (lstrip s)) as [w2 [E2 H2]].
  destruct (lstrip_decomp s) as [w3 [E3 H3]].
  rewrite <- (split_from_trailing _ w1 [] H1), <- E1.
  rewrite <- (split_from_trailing _ w2 [] H2), <- E2.
  rewrite E3 at 2. symmetry. apply (split_leading w3 (lstrip s) H3).
Qed.

Lemma startswith_app (p t : pystr) : startswith p (p ++ t) = true.
Proof.
  induction p as [|a p IH]; simpl; [reflexivity|].
  rewrite N.eqb_refl, IH. reflexivity.
Qed.

Lemma find_from_occurs (sub s : pystr) (i : Z) :
  (0 <= i)%Z -> (0 <= find_from sub s i)%Z -> exists a b, s = a ++ sub ++ b.
Proof.
  revert i. induction s as [|c s IH]; intros i Hi; simpl.
  - destruct (startswith sub []) eqn:E; [|lia].
    intros _. destruct (startswith_inv _ _ E) as [t Ht]. exists [], t. exact Ht.
  - destruct (startswith sub (c :: s)) eqn:E.
    + intros _. destruct (startswith_inv _ _ E) as [t Ht]. exists [], t. exact Ht.
    + intros H. destruct (IH (i + 1)%Z ltac:(lia) H) as (a & b & ->).
      exists (c :: a), b. reflexivity.
Qed.

Lemma find_from_of_occurrence (sub a b : pystr) (i : Z) :
  (0 <= i)%Z -> (0 <= find_from sub (a ++ sub ++ b) i)%Z.
Proof.
  revert i. induction a as [|c a IH]; intros i Hi.
  - simpl app. destruct (sub ++ b) as [|d t] eqn:E; simpl.
    + rewrite <- E, startswith_app. exact Hi.
    + rewrite <- E, startswith_app. exact Hi.
  - simpl. destruct (startswith sub (c :: a ++ sub ++ b)); [exact Hi|].
    apply IH. lia.
Qed.

(** [s.find(sub) >= 0] says that [sub] occurs in [s]. *)
Lemma find_occurs (s sub : pystr) :
  (0 <= find s sub)%Z <-> exists a b, s = a ++ sub ++ b.
Proof.
  unfold find. split.
  - apply find_from_occurs. lia.
  - intros (a & b & ->). apply find_from_of_occurrence. lia.
Qed.

(** What is found in the stripped string is found in the string. *)
Lemma find_in_stripped (s sub : pystr) :
  (0 <= find (rstrip (strip s)) sub)%Z -> (0 <= find s sub)%Z.
Proof.
  rewrite !find_occurs. intros (a & b & E).
  destruct (rstrip_decomp (strip s)) as [w1 [E1 _]].
  unfold strip in E1 at 1.
  destruct (rstrip_decomp (lstrip s)) as [w2 [E2 _]].
  destruct (lstrip_decomp s) as [w3 [E3 _]].
  exists (w3 ++ a), (b ++ w1 ++ w2).
  rewrite E3 at 1. rewrite E2 at 1. fold (strip s). rewrite E1 at 1. rewrite E.
  rewrite <- !app_assoc. reflexivity.
Qed.

End StringFacts.

(** * The mapping reader, line by line *)

Section MappingFacts.

Implicit Types (st : MapState) (raw req leg : pystr).

Lemma streq_true (a b : pystr) : streq a b = true <-> a = b.
Proof. unfold streq. apply bool_decide_eq_true. Qed.

Lemma streq_false (a b : pystr) : streq a b = false <-> a <> b.
Proof. unfold streq. apply bool_decide_eq_false. Qed.

Lemma header_not_blank raw : is_header raw = true -> is_blank raw = false.
Proof.
  unfold is_header, is_blank. intros H. apply streq_false. intros E.
  rewrite E in H. discriminate.
Qed.

(** The name a header line gives is never empty: the line holds the ten
    characters of the tag. *)
Lemma header_member_nonempty raw : is_header raw = true -> member_name raw <> [].
Proof.
  unfold is_header, member_name, drop_last. intros H.
  apply Z.leb_le, find_found_length in H.
  change (length bundle_tag) with 10%nat in H.
  destruct (clean raw) as [|a [|b t]]; simpl in *; try lia.
  destruct t; discriminate.
Qed.

Lemma map_step_header st raw :
  is_header raw = true ->
  map_step st raw =
    Ok (mkMapState (member_name raw) (files st ++ [member_name raw]) (mapChain st) (mapFile st)).
Proof. intros H. unfold map_step. fold (clean raw). unfold is_header in H. rewrite H. reflexivity. Qed.

Lemma map_step_blank st raw :
  is_header raw = false -> is_blank raw = true -> map_step st raw = Ok st.
Proof.
  intros Hh Hb. unfold map_step. fold (clean raw).
  unfold is_header in Hh. rewrite Hh. unfold is_blank in Hb. rewrite Hb.
  rewrite andb_false_r. reflexivity.
Qed.

Lemma data_not_blank raw leg req : is_data raw leg req -> is_blank raw = false.
Proof.
  intros [_ Hs]. unfold is_blank. apply streq_false. intros E.
  rewrite E in Hs. discriminate.
Qed.

Lemma data_code_token raw leg req : is_data raw leg req -> strip leg = leg /\ strip req = req.
Proof.
  intros [_ Hs]. pose proof (split_tokens (clean raw)) as Ht. rewrite Hs in Ht.
  inversion Ht as [|? ? [Hl1 Hl2] Ht']; subst.
  inversion Ht' as [|? ? [Hr1 Hr2] _]; subst.
  split; apply strip_token; assumption.
Qed.

Lemma map_step_data st raw leg req :
  is_data raw leg req -> actualFile st <> [] ->
  map_step st raw =
    Ok (mkMapState (actualFile st) (files st)
          (<[req := leg]> (mapChain st)) (<[req := actualFile st]> (mapFile st))).
Proof.
  intros Hd Ha. pose proof (data_not_blank _ _ _ Hd) as Hb.
  destruct (data_code_token _ _ _ Hd) as [Hl Hr]. destruct Hd as [Hh Hs].
  unfold map_step. fold (clean raw).
  unfold is_header in Hh. rewrite Hh. unfold is_blank in Hb. rewrite Hb.
  apply streq_false in Ha. rewrite Ha. simpl. rewrite Hs. simpl.
  rewrite Hl, Hr. reflexivity.
Qed.

(** A line of one token inside a block: the second token is missing. *)
Lemma map_step_one_token st raw t :
  is_header raw = false -> split (clean raw) = [t] -> actualFile st <> [] ->
  map_step st raw = Raise IndexError.
Proof.
  intros Hh Hs Ha. unfold map_step. fold (clean raw).
  unfold is_header in Hh. rewrite Hh.
  apply streq_false in Ha. rewrite Ha.
  assert (Hb : streq (clean raw) [] = false).
  { apply streq_false. intros E. rewrite E in Hs. discriminate. }
  rewrite Hb. simpl. rewrite Hs. reflexivity.
Qed.

(** The loop body raises nothing but [IndexError], and never leaves a
    block once it is in one. *)
Lemma map_step_cases st raw :
  map_step st raw = Raise IndexError \/
  exists st', map_step st raw = Ok st' /\
    (actualFile st <> [] \/ is_header raw = true -> actualFile st' <> []).
Proof.
  unfold map_step. fold (clean raw).
  destruct (0 <=? find (clean raw) bundle_tag)%Z eqn:Hh.
  - right. eexists. split; [reflexivity|]. intros _. simpl.
    apply header_member_nonempty. exact Hh.
  - destruct (negb (streq (actualFile st) []) && negb (streq (clean raw) [])).
    + destruct (split (clean raw)) as [|v [|k m]]; simpl;
        [left; reflexivity | left; reflexivity |].
      right. eexists. split; [reflexivity|]. simpl.
      intros [H|H]; [exact H | unfold is_header in H; congruence].
    + right. exists st. split; [reflexivity|].
      intros [H|H]; [exact H | unfold is_header in H; congruence].
Qed.

Lemma map_loop_cons st raw rest :
  raw <> [] ->
  map_loop st (raw :: rest) = (st' <- map_step st raw ;; map_loop st' rest).
Proof. intros H. simpl. apply streq_false in H. rewrite H. reflexivity. Qed.

Lemma map_loop_app st pre post :
  Forall (fun l => l <> []) pre ->
  map_loop st (pre ++ post) = (st' <- map_loop st pre ;; map_loop st' post).
Proof.
  intros H. revert st. induction H as [|raw pre Hraw _ IH]; intros st.
  - reflexivity.
  - rewrite <- app_comm_cons, !map_loop_cons by exact Hraw.
    destruct (map_step st raw) as [st'|e]; simpl; [apply IH | reflexivity].
Qed.

(** After lines that hold a header, the loop has failed with
    [IndexError] or is inside a block. *)
Lemma map_loop_in_block st pre :
  Forall (fun l => l <> []) pre ->
  actualFile st <> [] \/ Exists (fun l => is_header l = true) pre ->
  map_loop st pre = Raise IndexError \/
  exists st', map_loop st pre = Ok st' /\ actualFile st' <> [].
Proof.
  intros H. revert st. induction H as [|raw pre Hraw _ IH]; intros st Hin.
  - right. exists st. split; [reflexivity|].
    destruct Hin as [Ha|Hex]; [exact Ha | inversion Hex].
  - rewrite map_loop_cons by exact Hraw.
    destruct (map_step_cases st raw) as [->|[st' [-> Hst']]]; [left; reflexivity|].
    simpl. apply IH.
    destruct Hin as [Ha|Hex]; [left; apply Hst'; left; exact Ha|].
    inversion Hex as [? ? Hh|? ? Hex']; subst.
    + left. apply Hst'. right. exact Hh.
    + right. exact Hex'.
Qed.

End MappingFacts.

(** * The tables against the block structure of the file *)

Section Listings.

Implicit Types (st : MapState) (raw req leg : pystr).

Lemma blank_not_header raw : is_blank raw = true -> is_header raw = false.
Proof.
  intros Hb. destruct (is_header raw) eqn:Hh; [|reflexivity].
  apply header_not_blank in Hh. congruence.
Qed.

Lemma lists_code_header req raw : is_header raw = true -> lists_code req raw = false.
Proof. intros H. unfold lists_code. rewrite H. reflexivity. Qed.

Lemma lists_code_blank req raw : is_blank raw = true -> lists_code req raw = false.
Proof.
  intros H. unfold lists_code. apply streq_true in H. rewrite H.
  apply andb_false_r.
Qed.

Lemma lists_code_data req raw leg req0 :
  is_data raw leg req0 -> lists_code req raw = streq req0 req.
Proof. intros [Hh Hs]. unfold lists_code. rewrite Hh, Hs. reflexivity. Qed.

Lemma current_cons af raw seen :
  current af (raw :: seen) =
  current (if is_header raw then member_name raw else af) seen.
Proof. reflexivity. Qed.

(** The loop inside a block, on the lines of a valid file: it returns,
    and for every code either the tables hold its last listing, under the
    member file of the block that listing is in, or no line lists it and
    the tables are as before for it. *)
Lemma map_loop_block st lines :
  actualFile st <> [] -> Forall mapping_line lines ->
  exists st', map_loop st lines = Ok st' /\
    forall req,
      (exists seen d post leg,
          lines = seen ++ d :: post /\ is_data d leg req /\
          Forall (fun l => lists_code req l = false) post /\
          mapFile st' !! req = Some (current (actualFile st) seen) /\
          mapChain st' !! req = Some leg)
      \/ (Forall (fun l => lists_code req l = false) lines /\
          mapFile st' !! req = mapFile st !! req /\
          mapChain st' !! req = mapChain st !! req).
Proof.
  intros Ha H. revert st Ha.
  induction H as [|raw lines [Hne Hk] _ IH]; intros st Ha.
  - exists st. split; [reflexivity|]. intros req. right.
    split; [constructor | split; reflexivity].
  - rewrite map_loop_cons by exact Hne.
    destruct Hk as [Hh | [Hb | (leg0 & req0 & Hd)]].
    + rewrite map_step_header by exact Hh. cbn [bind].
      edestruct IH as (st' & E & Hreq);
        [| exists st'; split; [exact E|] ].
      { simpl. apply header_member_nonempty. exact Hh. }
      intros req.
      destruct (Hreq req) as
        [(seen & d & post & leg & -> & Hd & Hpost & HF & HC) | (Hnone & HF & HC)].
      * left. exists (raw :: seen), d, post, leg.
        rewrite current_cons, Hh. auto.
      * right. split; [|split; assumption].
        constructor; [apply lists_code_header; exact Hh | exact Hnone].
    + pose proof (blank_not_header raw Hb) as Hh.
      rewrite map_step_blank by assumption. cbn [bind].
      destruct (IH st Ha) as (st' & E & Hreq).
      exists st'. split; [exact E|]. intros req.
      destruct (Hreq req) as
        [(seen & d & post & leg & -> & Hd & Hpost & HF & HC) | (Hnone & HF & HC)].
      * left. exists (raw :: seen), d, post, leg.
        rewrite current_cons, Hh. auto.
      * right. split; [|split; assumption].
        constructor; [apply lists_code_blank; exact Hb | exact Hnone].
    + rewrite (map_step_data st raw leg0 req0 Hd Ha). cbn [bind].
      edestruct IH as (st' & E & Hreq);
        [| exists st'; split; [exact E|] ].
      { exact Ha. }
      intros req.
      destruct (Hreq req) as
        [(seen & d & post & leg & -> & Hd' & Hpost & HF & HC) | (Hnone & HF & HC)].
      * left. exists (raw :: seen), d, post, leg.
        rewrite current_cons. destruct Hd as [-> _]. auto.
      * simpl in HF, HC. destruct (decide (req0 = req)) as [->|Hneq].
        -- left. exists [], raw, lines, leg0.
           rewrite lookup_insert_eq in HF, HC. auto.
        -- right. rewrite lookup_insert_ne in HF, HC by exact Hneq.
           split; [|split; assumption].
           constructor; [|exact Hnone].
           rewrite (lists_code_data req raw leg0 req0 Hd).
           apply streq_false. exact Hneq.
Qed.

(** The block the reader is in is the one of the last header seen. *)
Lemma current_last_header seen h :
  is_header h = true ->
  exists pre h' mid,
    h :: seen = pre ++ h' :: mid /\ is_header h' = true /\
    Forall (fun l => is_header l = false) mid /\
    current (member_name h) seen = member_name h'.
Proof.
  revert h. induction seen as [|a seen IH]; intros h Hh.
  - exists [], h, []. auto.
  - rewrite current_cons. destruct (is_header a) eqn:Ea.
    + destruct (IH a Ea) as (pre & h' & mid & E & Hh' & Hmid & Hc).
      exists (h :: pre), h', mid. rewrite E. auto.
    + destruct (IH h Hh) as (pre & h' & mid & E & Hh' & Hmid & Hc).
      destruct pre as [|p pre]; simpl in E; injection E as <- ->.
      * exists [], h, (a :: mid). auto.
      * exists (h :: a :: pre), h', mid. auto.
Qed.

Lemma current_after_header af pre h mid :
  is_header h = true -> Forall (fun l => is_header l = false) mid ->
  current af (pre ++ h :: mid) = member_name h.
Proof.
  intros Hh Hmid. unfold current. rewrite fold_left_app. simpl. rewrite Hh.
  generalize (member_name h).
  induction Hmid as [|a mid Ha _ IH]; intros m; [reflexivity|].
  simpl. rewrite Ha. apply IH.
Qed.

(** The last element with a property is where it is, whichever way the
    list is cut. *)
Lemma last_occurrence_unique {A} (P : A -> bool) (x1 x2 : list A) d1 d2 p1 p2 :
  x1 ++ d1 :: p1 = x2 ++ d2 :: p2 ->
  P d1 = true -> P d2 = true ->
  Forall (fun l => P l = false) p1 -> Forall (fun l => P l = false) p2 ->
  x1 = x2 /\ d1 = d2 /\ p1 = p2.
Proof.
  revert x2. induction x1 as [|a x1 IH]; intros x2 E H1 H2 Hp1 Hp2.
  - destruct x2 as [|b x2]; simpl in E.
    + injection E as -> ->. auto.
    + injection E as -> ->.
      apply Forall_app in Hp1 as [_ Hp1].
      inversion Hp1; congruence.
  - destruct x2 as [|b x2]; simpl in E.
    + injection E as <- <-.
      apply Forall_app in Hp2 as [_ Hp2].
      inversion Hp2; congruence.
    + injection E as -> E.
      destruct (IH x2 E H1 H2 Hp1 Hp2) as (-> & -> & ->). auto.
Qed.

(** The two tables have the same keys. *)
Lemma map_loop_same_keys st lines st' :
  (forall k, mapFile st !! k = None <-> mapChain st !! k = None) ->
  map_loop st lines = Ok st' ->
  forall k, mapFile st' !! k = None <-> mapChain st' !! k = None.
Proof.
  revert st. induction lines as [|raw lines IH]; intros st Hst E.
  - injection E as <-. exact Hst.
  - simpl in E. destruct (streq raw []); [injection E as <-; exact Hst|].
    destruct (map_step st raw) as [st1|e] eqn:E1; simpl in E; [|discriminate].
    apply (IH st1); [|exact E].
    unfold map_step in E1.
    destruct (0 <=? find _ bundle_tag)%Z; [injection E1 as <-; exact Hst|].
    destruct (_ && _); [|injection E1 as <-; exact Hst].
    destruct (getitem _ 1) as [k1|]; simpl in E1; [|discriminate].
    destruct (getitem _ 0) as [v1|]; simpl in E1; [|discriminate].
    injection E1 as <-. simpl. intros k.
    destruct (decide (strip k1 = k)) as [->|Hne].
    + rewrite !lookup_insert_eq. split; discriminate.
    + rewrite !lookup_insert_ne by exact Hne. apply Hst.
Qed.

Lemma parse_same_keys lines mF mC :
  parsePdbBundleChainIdFile lines = Ok (mF, mC) ->
  forall k, mF !! k = None <-> mC !! k = None.
Proof.
  unfold parsePdbBundleChainIdFile. intros E.
  destruct (map_loop map_init lines) as [st|e] eqn:El; simpl in E; [|discriminate].
  injection E as <- <-.
  apply (map_loop_same_keys map_init lines st); [|exact El].
  intros k. simpl. rewrite !lookup_empty. tauto.
Qed.

End Listings.

(** * The loop body of the remapper, record by record *)

Section RecordFacts.

Implicit Types (f chain : pystr) (newChain : option pystr).

Lemma chars_length f : length (chars f) = length f.
Proof. apply length_map. Qed.

Lemma chars_lookup f i : chars f !! i = (fun c => [c]) <$> (f !! i).
Proof.
  revert i. induction f as [|a f IH]; intros [|i]; simpl; auto.
Qed.

Lemma chars_insert f i x : <[i := [x]]> (chars f) = chars (<[i := x]> f).
Proof.
  revert i. induction f as [|a f IH]; intros [|i]; simpl; auto.
  f_equal. apply IH.
Qed.

Lemma concat_chars f : concat (chars f) = f.
Proof. induction f as [|a f IH]; simpl; [|rewrite IH]; reflexivity. Qed.

Lemma concat_insert_chars f i x :
  (i < length f)%nat ->
  concat (<[i := x]> (chars f)) = take i f ++ x ++ drop (S i) f.
Proof.
  revert i. induction f as [|a f IH]; intros i Hi; simpl in Hi; [lia|].
  destruct i as [|i]; simpl.
  - rewrite concat_chars. reflexivity.
  - rewrite IH by lia. reflexivity.
Qed.

Lemma getitem_chars f i :
  getitem (chars f) i =
    match f !! i with
    | Some c => Ok [c]
    | None => Raise IndexError
    end.
Proof. unfold getitem. rewrite chars_lookup. destruct (f !! i); reflexivity. Qed.

Lemma setitem_ok {A} (l : list A) i x :
  (i < length l)%nat -> setitem l i x = Ok (<[i := x]> l).
Proof. intros H. unfold setitem. rewrite bool_decide_eq_true_2 by exact H. reflexivity. Qed.

(** The three branches write the requested code as [remapped] says. *)
Lemma rewrite_chain_remapped chain f :
  (22 <= length f)%nat ->
  exists l, rewrite_chain chain (chars f) = Ok l /\ concat l = remapped chain f.
Proof.
  intros Hlen. unfold rewrite_chain.
  destruct chain as [|x [|y [|z chain]]]; simpl length.
  - rewrite bool_decide_eq_false_2, bool_decide_eq_false_2 by lia.
    rewrite setitem_ok by (rewrite chars_length; lia).
    eexists. split; [reflexivity|].
    rewrite concat_insert_chars by lia. reflexivity.
  - rewrite bool_decide_eq_false_2, bool_decide_eq_false_2 by lia.
    rewrite setitem_ok by (rewrite chars_length; lia).
    eexists. split; [reflexivity|].
    rewrite chars_insert, concat_chars. reflexivity.
  - rewrite bool_decide_eq_false_2, bool_decide_eq_true_2 by lia.
    cbn [getitem lookup list_lookup bind].
    rewrite setitem_ok by (rewrite chars_length; lia). cbn [bind].
    rewrite setitem_ok by (rewrite length_insert, chars_length; lia).
    eexists. split; [reflexivity|].
    rewrite !chars_insert, concat_chars. reflexivity.
  - rewrite bool_decide_eq_true_2 by lia.
    rewrite setitem_ok by (rewrite length_app, chars_length; lia).
    eexists. split; [reflexivity|].
    rewrite insert_app_l by (rewrite chars_length; lia).
    change (py "%") with [PERCENT].
    rewrite chars_insert, concat_app, !concat_chars. reflexivity.
Qed.

Lemma translate_record_other chain newChain f :
  is_atom_record f = false ->
  translate_record chain newChain f = Ok (Some (f ++ [LF])).
Proof. intros H. unfold translate_record. rewrite H. reflexivity. Qed.

Lemma translate_record_short chain newChain f :
  is_atom_record f = true -> (length f < 22)%nat ->
  translate_record chain newChain f = Raise IndexError.
Proof.
  intros H Hlen. unfold translate_record. rewrite H, getitem_chars.
  rewrite (lookup_ge_None_2 f 21) by lia. reflexivity.
Qed.

Lemma chain_matches_decides newChain f c :
  f !! 21%nat = Some c ->
  chain_matches newChain f = bool_decide (Some [c] = newChain).
Proof. intros H. unfold chain_matches, column. simpl. rewrite H. reflexivity. Qed.

Lemma translate_record_dropped chain newChain f :
  is_atom_record f = true -> (22 <= length f)%nat ->
  chain_matches newChain f = false ->
  translate_record chain newChain f = Ok None.
Proof.
  intros H Hlen Hm. unfold translate_record. rewrite H, getitem_chars.
  destruct (lookup_lt_is_Some_2 f 21 ltac:(lia)) as [c Hc].
  rewrite Hc. cbn [bind].
  rewrite (chain_matches_decides _ _ _ Hc) in Hm. rewrite Hm. reflexivity.
Qed.

Lemma translate_record_remapped chain newChain f :
  is_atom_record f = true -> (22 <= length f)%nat ->
  chain_matches newChain f = true ->
  translate_record chain newChain f = Ok (Some (remapped chain f ++ [LF])).
Proof.
  intros H Hlen Hm. unfold translate_record. rewrite H, getitem_chars.
  destruct (lookup_lt_is_Some_2 f 21 ltac:(lia)) as [c Hc].
  rewrite Hc. cbn [bind].
  rewrite (chain_matches_decides _ _ _ Hc) in Hm. rewrite Hm.
  destruct (rewrite_chain_remapped chain f Hlen) as (l & -> & <-).
  reflexivity.
Qed.

End RecordFacts.

(** * The lines of a text file *)

Section TextFileFacts.

Implicit Types (s cur l : pystr).







End TextFileFacts.

(** * The csv reader on text lines *)

Section ReaderFacts.

Implicit Types (r : Reader) (b l : pystr).

Lemma feed_chars_app r a b :
  feed_chars r (a ++ b) = (r' <- feed_chars r a ;; feed_chars r' b).
Proof.
  revert r. induction a as [|c a IH]; intros r; simpl; [reflexivity|].
  destruct (parse_process_char r (Some c)); simpl; [apply IH | reflexivity].
Qed.

Lemma field_char_inv c :
  field_char c = true -> is_newline c = false /\ (c =? COMMA) = false.
Proof.
  unfold field_char. intros H. apply negb_true_iff, orb_false_iff in H. exact H.
Qed.

(** A character is added to a field that has room for it. *)
Lemma parse_add_char_ok c r :
  (N.of_nat (length (field r)) < field_limit)%N ->
  parse_add_char c r = Ok (mkReader (state r) (fields r) (c :: field r)).
Proof.
  unfold parse_add_char. intros H.
  destruct (N.leb_spec field_limit (N.of_nat (length (field r)))); [lia | reflexivity].
Qed.



(** Inside an unquoted field, characters other than the comma and the
    line ends are added to the field, as long as it has room. *)
Lemma feed_chars_in_field fs acc b :
  forallb field_char b = true ->
  (N.of_nat (length b + length acc) <= field_limit)%N ->
  feed_chars (mkReader IN_FIELD fs acc) b = Ok (mkReader IN_FIELD fs (rev b ++ acc)).
Proof.
  revert acc. induction b as [|c b IH]; intros acc H Hlen; [reflexivity|].
  simpl in H. apply andb_true_iff in H as [Hc Hb].
  destruct (field_char_inv c Hc) as [Hn Hcomma].
  simpl. unfold parse_process_char. simpl. rewrite Hn, Hcomma.
  rewrite parse_add_char_ok by (simpl in *; lia). cbn [bind state fields field].
  rewrite IH by (simpl in *; assumption || lia).
  rewrite <- app_assoc. reflexivity.
Qed.

(** A field that outgrows the limit ends the reading with [_csv.Error]. *)
Lemma feed_chars_over_limit fs acc b :
  forallb field_char b = true ->
  (field_limit < N.of_nat (length b + length acc))%N ->
  (N.of_nat (length acc) <= field_limit)%N ->
  feed_chars (mkReader IN_FIELD fs acc) b = Raise CsvError.
Proof.
  revert acc. induction b as [|c b IH]; intros acc H Hover Hacc.
  - simpl in Hover. lia.
  - simpl in H. apply andb_true_iff in H as [Hc Hb].
    destruct (field_char_inv c Hc) as [Hn Hcomma].
    simpl. unfold parse_process_char. simpl. rewrite Hn, Hcomma.
    unfold parse_add_char. cbn [field].
    destruct (N.leb_spec field_limit (N.of_nat (length acc))) as [Hfull|Hroom];
      [reflexivity|].
    cbn [bind state fields]. apply IH; [exact Hb | simpl in *; lia | simpl; lia].
Qed.

(** A line of more than [field_limit] characters without a comma, not
    opened by a quote: the reader raises [_csv.Error] on it. *)
Lemma feed_long_line c b t :
  (c =? QUOTE) = false -> forallb field_char (c :: b) = true ->
  (field_limit < N.of_nat (length (c :: b)))%N ->
  feed_line parse_reset ((c :: b) ++ t) = Raise CsvError.
Proof.
  intros Hq H Hlen. unfold feed_line. rewrite feed_chars_app.
  simpl in H. apply andb_true_iff in H as [Hc Hb].
  destruct (field_char_inv c Hc) as [Hn Hcomma].
  assert (Hstart : parse_process_char parse_reset (Some c) = Ok (mkReader IN_FIELD [] [c])).
  { unfold parse_process_char, start_field. simpl. rewrite Hn, Hq, Hcomma. reflexivity. }
  cbn [feed_chars]. rewrite Hstart. cbn [bind].
  rewrite feed_chars_over_limit; [reflexivity | exact Hb | | ].
  - simpl in *. lia.
  - simpl. unfold field_limit. lia.
Qed.

Lemma body_of_cases l : l = body_of l ++ [LF] \/ l = body_of l.
Proof.
  unfold body_of. destruct (rev l) as [|c t] eqn:E; [right; reflexivity|].
  destruct (c =? LF) eqn:Ec; [left | right; reflexivity].
  apply N.eqb_eq in Ec. subst c.
  rewrite <- (rev_involutive l), E. reflexivity.
Qed.

(** A plain line is read as one record of one field, its body. *)
Lemma feed_plain_body b :
  plain_body b = true ->
  feed_line parse_reset b = Ok (mkReader START_RECORD [b] []) /\
  feed_line parse_reset (b ++ [LF]) = Ok (mkReader START_RECORD [b] []).
Proof.
  unfold plain_body. destruct b as [|c b]; [discriminate|].
  intros H. apply andb_true_iff in H as [H Hlim].
  apply N.leb_le in Hlim. cbn [length] in Hlim.
  apply andb_true_iff in H as [Hq H].
  apply negb_true_iff in Hq.
  simpl in H. apply andb_true_iff in H as [Hc Hb].
  destruct (field_char_inv c Hc) as [Hn Hcomma].
  assert (Hstart : parse_process_char parse_reset (Some c) = Ok (mkReader IN_FIELD [] [c])).
  { unfold parse_process_char, start_field. simpl. rewrite Hn, Hq, Hcomma. reflexivity. }
  assert (Hroom : (N.of_nat (length b + length [c]) <= field_limit)%N)
    by (simpl; lia).
  unfold feed_line. split.
  - simpl. rewrite Hstart. cbn [bind].
    rewrite feed_chars_in_field by assumption. cbn [bind].
    unfold parse_process_char, end_of_record, set_state, parse_save_field. simpl.
    rewrite rev_app_distr, rev_involutive. reflexivity.
  - rewrite feed_chars_app. simpl. rewrite Hstart. cbn [bind].
    rewrite feed_chars_in_field by assumption. cbn [bind].
    unfold parse_process_char, end_of_record, set_state, parse_save_field. simpl.
    rewrite rev_app_distr, rev_involutive. reflexivity.
Qed.

Lemma feed_plain_line l :
  plain_line l = true ->
  feed_line parse_reset l = Ok (mkReader START_RECORD [body_of l] []).
Proof.
  unfold plain_line. intros H.
  destruct (feed_plain_body (body_of l) H) as [H1 H2].
  destruct (body_of_cases l) as [E|E]; rewrite E at 1; assumption.
Qed.

Lemma reader_plain_cons l rest :
  plain_line l = true ->
  reader (l :: rest) = ([body_of l] :: fst (reader rest), snd (reader rest)).
Proof.
  intros H. unfold reader. simpl. rewrite (feed_plain_line l H). simpl.
  destruct (reader_from parse_reset rest). reflexivity.
Qed.

End ReaderFacts.

(** * The csv reader on every line of a text file *)

Section ReaderOnFiles.

Implicit Types (r : Reader) (b l : pystr).













(** The lines before a record boundary are read on their own. *)
Lemma reader_from_boundary pre rest r :
  in_step r -> boundary_from r pre = true ->
  snd (reader_from r pre) = None /\
  reader_from r (pre ++ rest) =
    (fst (reader_from r pre) ++ fst (reader rest), snd (reader rest)).
Proof.
  revert r. induction pre as [|l pre IH]; intros r Hr Hb.
  - simpl in Hb. destruct Hr as [-> | Hr]; [|congruence].
    simpl. split; [reflexivity|]. unfold reader.
    destruct (reader_from parse_reset rest). reflexivity.
  - simpl in Hb |- *. destruct (feed_line r l) as [r'|]; [|discriminate].
    destruct (at_start r') eqn:Es.
    + destruct (IH parse_reset (or_introl eq_refl) Hb) as [H1 H2].
      rewrite H2. destruct (reader_from parse_reset pre) as [rows e].
      simpl in *. auto.
    + apply IH; [right; exact Es | exact Hb].
Qed.

End ReaderOnFiles.

(** * The remapper on whole files *)

Section LoopFacts.

Implicit Types (chain : pystr) (newChain : option pystr) (out : pystr).

Lemma write_rows_out chain newChain rows e out :
  write_rows chain newChain rows e out =
  mkOutcome (out ++ written (write_rows chain newChain rows e []))
            (raised (write_rows chain newChain rows e [])).
Proof.
  revert out. induction rows as [|row rows IH]; intros out; simpl.
  - rewrite app_nil_r. reflexivity.
  - destruct (translate_row chain newChain row) as [w|x]; simpl.
    + rewrite (IH (out ++ default [] w)), (IH (default [] w)).
      simpl. rewrite app_assoc. reflexivity.
    + rewrite app_nil_r. reflexivity.
Qed.

Lemma write_rows_cons chain newChain row rows e :
  write_rows chain newChain (row :: rows) e [] =
  then_outcome (translate_row chain newChain row) (write_rows chain newChain rows e []).
Proof.
  simpl. destruct (translate_row chain newChain row) as [w|x]; simpl; [|reflexivity].
  apply write_rows_out.
Qed.

Lemma translate_row_head chain newChain f fs :
  translate_row chain newChain (f :: fs) = translate_record chain newChain f.
Proof. reflexivity. Qed.

(** A plain line first: its record is handled, then the rest of the
    file. *)
Lemma translate_lines_plain_cons l rest chain newChain :
  plain_line l = true ->
  translate_lines (l :: rest) chain newChain =
  then_outcome (translate_record chain newChain (body_of l))
               (translate_lines rest chain newChain).
Proof.
  intros H. unfold translate_lines. rewrite (reader_plain_cons l rest H).
  destruct (reader rest) as [rows e]. simpl fst. simpl snd.
  rewrite write_rows_cons, translate_row_head. reflexivity.
Qed.

Lemma write_rows_app chain newChain rows1 rows2 e :
  raised (write_rows chain newChain rows1 None []) = None ->
  write_rows chain newChain (rows1 ++ rows2) e [] =
    mkOutcome (written (write_rows chain newChain rows1 None []) ++
               written (write_rows chain newChain rows2 e []))
              (raised (write_rows chain newChain rows2 e [])).
Proof.
  induction rows1 as [|row rows1 IH]; intros H.
  - simpl. destruct (write_rows chain newChain rows2 e []). reflexivity.
  - rewrite <- app_comm_cons, !write_rows_cons in *.
    destruct (translate_row chain newChain row) as [w|x]; simpl in *; [|discriminate].
    rewrite (IH H). simpl. rewrite app_assoc. reflexivity.
Qed.

(** The lines up to a record boundary are handled on their own; the run
    goes on with the rest when they raise nothing. *)
Lemma translate_lines_app pre rest chain newChain :
  record_boundary pre = true ->
  raised (translate_lines pre chain newChain) = None ->
  translate_lines (pre ++ rest) chain newChain =
    mkOutcome (written (translate_lines pre chain newChain) ++
               written (translate_lines rest chain newChain))
              (raised (translate_lines rest chain newChain)).
Proof.
  unfold record_boundary, translate_lines, reader. intros Hb Hr.
  destruct (reader_from_boundary pre rest parse_reset (or_introl eq_refl) Hb)
    as [He ->].
  destruct (reader_from parse_reset pre) as [rows1 e1]. simpl in He. subst e1.
  unfold reader. destruct (reader_from parse_reset rest) as [rows2 e2].
  simpl fst. simpl snd. apply write_rows_app. exact Hr.
Qed.


(** A plain atom line of the requested chain, where the reader starts a
    record: the remapped record and the terminator are written for it, and
    the loop goes on. *)
Lemma translate_plain_atom_line pre post l chain newChain :
  record_boundary pre = true ->
  raised (translate_lines pre chain newChain) = None ->
  plain_line l = true -> is_atom_record (body_of l) = true ->
  chain_matches newChain (body_of l) = true ->
  translate_lines (pre ++ l :: post) chain newChain =
    mkOutcome (written (translate_lines pre chain newChain) ++
               (remapped chain (body_of l) ++ [LF]) ++
               written (translate_lines post chain newChain))
              (raised (translate_lines post chain newChain)).
Proof.
  intros Hb Hr Hl Ha Hm.
  rewrite (translate_lines_app pre (l :: post) chain newChain Hb Hr).
  rewrite (translate_lines_plain_cons l post chain newChain Hl).
  assert (Hlen : (22 <= length (body_of l))%nat).
  { unfold chain_matches, column in Hm.
    destruct (body_of l !! 21%nat) eqn:E; [|discriminate].
    apply lookup_lt_Some in E. lia. }
  rewrite translate_record_remapped by assumption. reflexivity.
Qed.

(** [parsePdbAndTranslateChain] on an input file that is there and is
    not the output file: the output file holds what the loop wrote, and the
    exception of the loop, if any, is the one of the call. *)
Lemma parsePdbAndTranslateChain_run (self : PdbFile) (pdbFileIn chain0 : pystr)
    (newChain : option pystr) (fs : FS) (c text : pystr) :
  chain self = Some c -> fs !! pdbFileIn = Some text ->
  remapped_path self c <> pdbFileIn ->
  parsePdbAndTranslateChain self pdbFileIn chain0 newChain fs =
    (<[remapped_path self c := written (translate_lines (readlines text) chain0 newChain)]> fs,
     match raised (translate_lines (readlines text) chain0 newChain) with
     | None => Ok (set_out_file (remapped_path self c) self)
     | Some e => Raise e
     end).
Proof.
  intros Hc Hin Hne.
  unfold parsePdbAndTranslateChain, io_bind, io_lift, open_read.
  rewrite Hc. unfold str_add. cbv iota beta. rewrite Hin.
  fold (remapped_path self c). cbn [out_file set_out_file].
  rewrite lookup_insert_ne by exact Hne. rewrite Hin. cbn [default].
  rewrite insert_insert_eq. reflexivity.
Qed.

(** On a file of plain lines without a short atom record every line
    contributes as the description says, and the loop ends without an
    exception. *)
Lemma translate_plain_file lines chain newChain :
  Forall (fun l => plain_line l = true) lines ->
  Forall (fun l => short_atom_record l = false) lines ->
  translate_lines lines chain newChain =
    mkOutcome (concat (map (contribution chain newChain) lines)) None.
Proof.
  intros Hp. induction Hp as [|l lines Hl _ IH]; intros Hs; [reflexivity|].
  inversion Hs as [|? ? Hsl Hs']; subst.
  rewrite (translate_lines_plain_cons l lines chain newChain Hl), (IH Hs').
  simpl. unfold contribution, short_atom_record in *.
  destruct (is_atom_record (body_of l)) eqn:Ea.
  - simpl in Hsl. apply bool_decide_eq_false in Hsl.
    destruct (chain_matches newChain (body_of l)) eqn:Em.
    + rewrite translate_record_remapped by (assumption || lia). reflexivity.
    + rewrite translate_record_dropped by (assumption || lia). reflexivity.
  - rewrite translate_record_other by exact Ea. reflexivity.
Qed.

(** A short atom line that the reader hands over whole, where the reader
    starts a record, ends the loop with [IndexError], with the output of
    the lines before it and no more. *)
Lemma translate_short_plain_line pre post l chain newChain :
  record_boundary pre = true ->
  raised (translate_lines pre chain newChain) = None ->
  plain_line l = true -> short_atom_record l = true ->
  translate_lines (pre ++ l :: post) chain newChain =
    mkOutcome (written (translate_lines pre chain newChain)) (Some IndexError).
Proof.
  intros Hb Hr Hl Hs.
  rewrite (translate_lines_app pre (l :: post) chain newChain Hb Hr).
  rewrite (translate_lines_plain_cons l post chain newChain Hl).
  unfold short_atom_record in Hs. apply andb_true_iff in Hs as [Ha Hlen].
  apply bool_decide_eq_true in Hlen.
  rewrite translate_record_short by assumption.
  simpl. rewrite app_nil_r. reflexivity.
Qed.

End LoopFacts.

(** * Properties of the mapping reader *)

Lemma two_block_file_valid :
  valid_mapping
    [ln "1abc-pdb-bundle1.pdb:"; ln "A B"; ln "1abc-pdb-bundle2.pdb:"; ln "C B"].
Proof.
  split; [|reflexivity].
  apply List.Forall_cons; [split; [discriminate | left; reflexivity]|].
  apply List.Forall_cons.
  { split; [discriminate|]. right. right.
    exists (py "A"), (py "B"). split; reflexivity. }
  apply List.Forall_cons; [split; [discriminate | left; reflexivity]|].
  apply List.Forall_cons; [|apply List.Forall_nil].
  split; [discriminate|]. right. right.
  exists (py "C"), (py "B"). split; reflexivity.
Qed.

(** C2, as stated, fails: a file of two blocks that list the requested code
    [B] once each is valid, and the tables cannot hold both listings; the
    later one has replaced the earlier. *)
Lemma repeated_code_keeps_one_listing :
  valid_mapping
    [ln "1abc-pdb-bundle1.pdb:"; ln "A B"; ln "1abc-pdb-bundle2.pdb:"; ln "C B"] /\
  ~ tables_hold_every_listing
    [ln "1abc-pdb-bundle1.pdb:"; ln "A B"; ln "1abc-pdb-bundle2.pdb:"; ln "C B"].
Proof.
  split; [exact two_block_file_valid|].
  intros (mF & mC & _ & Hall & _).
  assert (H1 : mF !! py "B" = Some (py "1abc-pdb-bundle1.pdb")).
  { apply (Hall (py "B") (py "A")).
    exists [], (ln "1abc-pdb-bundle1.pdb:"), [], (ln "A B"),
      [ln "1abc-pdb-bundle2.pdb:"; ln "C B"].
    repeat split; constructor. }
  assert (H2 : mF !! py "B" = Some (py "1abc-pdb-bundle2.pdb")).
  { apply (Hall (py "B") (py "C")).
    exists [ln "1abc-pdb-bundle1.pdb:"; ln "A B"], (ln "1abc-pdb-bundle2.pdb:"), [],
      (ln "C B"), [].
    repeat split; constructor. }
  rewrite H1 in H2. discriminate.
Qed.

(** C2, amended: for every valid bundle mapping file the reader returns a
    pair of tables in which every requested code maps to the member-file
    name of the block, and to the legacy code of the data line, of the last
    data line that lists it, and no other keys are present.  When every
    code is listed once, that is the listing of the file. *)
Theorem tables_follow_last_listing (lines : list pystr) :
  valid_mapping lines -> tables_hold_last_listing lines.
Proof.
  intros [Hall Hfirst]. unfold tables_hold_last_listing, parsePdbBundleChainIdFile.
  destruct lines as [|h rest].
  - exists ∅, ∅. split; [reflexivity|]. split.
    + intros req leg mf (pre & h' & mid & d & post & E & _).
      destruct pre; discriminate.
    + intros req [[x Hx]|[x Hx]]; rewrite lookup_empty in Hx; discriminate.
  - inversion Hall as [|? ? [Hne _] Hrest]; subst.
    rewrite map_loop_cons by exact Hne.
    rewrite map_step_header by exact Hfirst. cbn [bind].
    edestruct (map_loop_block
                 (mkMapState (member_name h) (files map_init ++ [member_name h])
                    (mapChain map_init) (mapFile map_init)) rest)
      as (st' & -> & Hreq);
      [simpl; apply header_member_nonempty; exact Hfirst | exact Hrest |].
    cbn [bind]. exists (mapFile st'), (mapChain st').
    split; [reflexivity|]. split.
    + intros req leg mf (pre & h' & mid & d & post & E & Hh' & -> & Hmid & Hd & Hpost).
      assert (Hlists : lists_code req d = true).
      { rewrite (lists_code_data req d leg req Hd). apply streq_true. reflexivity. }
      destruct (Hreq req) as
        [(seen & d' & post' & leg' & Erest & Hd' & Hpost' & HF & HC) | (Hnone & _)].
      * assert (E' : (pre ++ h' :: mid) ++ d :: post = (h :: seen) ++ d' :: post').
        { rewrite <- app_assoc. simpl. rewrite <- E, Erest. reflexivity. }
        assert (Hlists' : lists_code req d' = true).
        { rewrite (lists_code_data req d' leg' req Hd'). apply streq_true. reflexivity. }
        destruct (last_occurrence_unique (lists_code req) _ _ _ _ _ _ E'
                    Hlists Hlists' Hpost Hpost') as (Eseen & <- & <-).
        destruct Hd as [_ Hs], Hd' as [_ Hs'].
        rewrite Hs in Hs'. injection Hs' as <-.
        split; [|exact HC]. rewrite HF. f_equal. simpl.
        rewrite <- (current_after_header [] pre h' mid Hh' Hmid).
        rewrite Eseen, current_cons, Hfirst. reflexivity.
      * exfalso.
        assert (Hin : d ∈ rest).
        { destruct pre as [|p pre]; simpl in E; injection E as _ ->;
            rewrite ?elem_of_app, ?elem_of_cons, ?elem_of_app, ?elem_of_cons; tauto. }
        rewrite Forall_forall in Hnone.
        specialize (Hnone d Hin). congruence.
    + intros req Hsome.
      destruct (Hreq req) as
        [(seen & d & post & leg & -> & Hd & Hpost & HF & HC) | (_ & HF & HC)].
      * destruct (current_last_header seen h Hfirst)
          as (pre & h' & mid & E & Hh' & Hmid & Hc).
        exists leg, (member_name h'), pre, h', mid, d, post.
        split; [|auto].
        rewrite app_comm_cons, E, <- app_assoc. reflexivity.
      * simpl in HF, HC. rewrite lookup_empty in HF, HC.
        destruct Hsome as [[x Hx]|[x Hx]]; congruence.
Qed.

Lemma tables_follow_last_listing_witness :
  valid_mapping
    [ln "1abc-pdb-bundle1.pdb:"; ln "A B"; ln "1abc-pdb-bundle2.pdb:"; ln "C B"] /\
  tables_hold_last_listing
    [ln "1abc-pdb-bundle1.pdb:"; ln "A B"; ln "1abc-pdb-bundle2.pdb:"; ln "C B"].
Proof.
  split; [exact two_block_file_valid|].
  exact (tables_follow_last_listing _ two_block_file_valid).
Defined.

(** C10: in a mapping file where a line of exactly one whitespace-separated
    token that does not contain [pdb-bundle] comes after a header line, the
    reader fails with an out-of-range access ([IndexError]) on the second
    token instead of returning tables. *)
Theorem one_token_line_raises (pre post : list pystr) (l t : pystr) :
  Forall (fun raw => raw <> []) pre ->
  Exists (fun raw => is_header raw = true) pre ->
  (find l bundle_tag < 0)%Z ->
  split l = [t] ->
  parsePdbBundleChainIdFile (pre ++ l :: post) = Raise IndexError.
Proof.
  intros Hpre Hex Hno Hs.
  assert (Hh : is_header l = false).
  { unfold is_header, clean. apply Z.leb_gt.
    destruct (Z.le_gt_cases 0 (find (rstrip (strip l)) bundle_tag)) as [H|H]; [|lia].
    apply find_in_stripped in H. lia. }
  unfold parsePdbBundleChainIdFile.
  rewrite map_loop_app by exact Hpre.
  destruct (map_loop_in_block map_init pre Hpre (or_intror Hex))
    as [->|[st [-> Hst]]]; [reflexivity|].
  assert (Hl : l <> []) by (intros ->; discriminate).
  cbn [bind]. rewrite map_loop_cons by exact Hl.
  rewrite (map_step_one_token st l t Hh); [reflexivity | | exact Hst].
  unfold clean. rewrite split_strip. exact Hs.
Qed.

Lemma one_token_line_raises_witness :
  Forall (fun raw : pystr => raw <> []) [ln "1abc-pdb-bundle1.pdb:"; ln "A B"] /\
  Exists (fun raw => is_header raw = true) [ln "1abc-pdb-bundle1.pdb:"; ln "A B"] /\
  (find (ln "C") bundle_tag < 0)%Z /\
  split (ln "C") = [py "C"] /\
  parsePdbBundleChainIdFile
    ([ln "1abc-pdb-bundle1.pdb:"; ln "A B"] ++ ln "C" :: [ln "D E"]) = Raise IndexError.
Proof.
  assert (H1 : Forall (fun raw : pystr => raw <> [])
                 [ln "1abc-pdb-bundle1.pdb:"; ln "A B"])
    by (repeat constructor; discriminate).
  assert (H2 : Exists (fun raw => is_header raw = true)
                 [ln "1abc-pdb-bundle1.pdb:"; ln "A B"])
    by (left; reflexivity).
  split; [exact H1|]. split; [exact H2|].
  split; [reflexivity|]. split; [reflexivity|].
  exact (one_token_line_raises _ [ln "D E"] (ln "C") (py "C") H1 H2 eq_refl eq_refl).
Defined.

(** C8, as stated, fails: the line [1abc.pdb1] does not hold the tag
    [pdb-bundle], so it opens no block, the data line after it is passed
    over, and the requested chain [B] is in neither table. *)
Lemma untagged_header_scenario_fails :
  ~ (exists mF mC,
       parsePdbBundleChainIdFile [ln "1abc.pdb1"; ln "A B"] = Ok (mF, mC) /\
       mF !! py "B" = Some (py "1abc.pdb1") /\
       mC !! py "B" = Some (py "A")).
Proof.
  intros [mF [mC [Hp [HF _]]]].
  vm_compute in Hp. injection Hp as <- <-.
  vm_compute in HF. discriminate.
Qed.

(** C8, amended: for the mapping file made of the line [1abc.pdb1] and the
    data line [A B] both tables come back empty; with a header line that
    holds the tag, [1abc-pdb-bundle1.pdb:], the requested chain [B] maps to
    the member file [1abc-pdb-bundle1.pdb] (the header line less its final
    character) and to the legacy code [A]. *)
Theorem tagged_header_scenario :
  parsePdbBundleChainIdFile [ln "1abc.pdb1"; ln "A B"] = Ok (∅, ∅) /\
  parsePdbBundleChainIdFile [ln "1abc-pdb-bundle1.pdb:"; ln "A B"] =
    Ok ({[ py "B" := py "1abc-pdb-bundle1.pdb" ]}, {[ py "B" := py "A" ]}).
Proof. split; vm_compute; reflexivity. Qed.

(** * Properties of the chain remapper *)

Section RemapperFacts.

Implicit Types (chain f : pystr) (newChain : option pystr).

(** A record that is kept is an atom record with a chain column that
    holds the legacy code, and what is written is the remapped record. *)
Lemma translate_record_kept_inv chain newChain f w :
  is_atom_record f = true ->
  translate_record chain newChain f = Ok (Some w) ->
  (22 <= length f)%nat /\ chain_matches newChain f = true /\
  w = remapped chain f ++ [LF].
Proof.
  intros Ha H.
  destruct (le_lt_dec 22 (length f)) as [Hlen|Hlen];
    [|rewrite translate_record_short in H by assumption; discriminate].
  destruct (chain_matches newChain f) eqn:Em;
    [|rewrite translate_record_dropped in H by assumption; discriminate].
  rewrite translate_record_remapped in H by assumption.
  injection H as <-. auto.
Qed.

Lemma chain_matches_column legacy f :
  chain_matches (Some [legacy]) f = true <-> column 22 f = Some legacy.
Proof.
  unfold chain_matches. destruct (column 22 f) as [c|]; [|split; discriminate].
  rewrite bool_decide_eq_true. split; congruence.
Qed.

Lemma column_insert_eq (f t : pystr) i x :
  (i < length f)%nat -> column (S i) (<[i := x]> f ++ t) = Some x.
Proof.
  intros Hi. simpl. rewrite lookup_app_l by (rewrite length_insert; exact Hi).
  apply list_lookup_insert_eq. exact Hi.
Qed.

Lemma column_insert_ne (f t : pystr) i x j :
  (i < length f)%nat -> j <> S i ->
  column j (<[i := x]> f ++ t) = column j (f ++ t).
Proof.
  intros Hi Hj. destruct j as [|j]; [reflexivity|]. simpl.
  rewrite <- insert_app_l by exact Hi.
  apply list_lookup_insert_ne. congruence.
Qed.

End RemapperFacts.

(** C3, as stated, fails: in the record below column 21 holds a blank and
    column 22 the legacy code [A]; the record is kept, so it is not
    column 21 that decides. *)
Lemma column_21_does_not_decide :
  column 21 (py "ATOM      1  N   MET A   1") = Some 32 /\
  column 22 (py "ATOM      1  N   MET A   1") = Some 65 /\
  translate_record (py "B") (Some [65]) (py "ATOM      1  N   MET A   1") =
    Ok (Some (ln "ATOM      1  N   MET B   1")) /\
  ~ decided_by_column 21.
Proof.
  split; [reflexivity|]. split; [reflexivity|]. split; [reflexivity|].
  intros H.
  destruct (H (py "B") 65 (py "ATOM      1  N   MET A   1") eq_refl) as [H1 _].
  { simpl. lia. }
  assert (Hk : kept (py "B") (Some [65]) (py "ATOM      1  N   MET A   1")).
  { eexists. reflexivity. }
  apply H1 in Hk. discriminate.
Qed.

(** C3, amended: for every ATOM/HETATM record the loop handles, the
    character looked at to keep or drop it, and the one written over for a
    one-character requested code, is that of column 22 counted from 1 (index
    21 counted from 0), and the first character of a two-character requested
    code goes to column 21 (index 20), the second to column 22; no other
    column changes. *)
Theorem chain_column_is_22 :
  decided_by_column 22 /\ one_char_code_in_column 22 /\ two_char_code_in_columns 21.
Proof.
  split; [|split].
  - intros chain legacy f Ha Hlen. rewrite <- chain_matches_column. split.
    + intros [w Hw]. apply (translate_record_kept_inv _ _ _ _ Ha Hw).
    + intros Hm. eexists. apply translate_record_remapped; assumption.
  - intros x legacy f w Ha Hw.
    destruct (translate_record_kept_inv _ _ _ _ Ha Hw) as (Hlen & _ & ->).
    simpl remapped. split.
    + apply column_insert_eq. lia.
    + intros j Hj. apply column_insert_ne; [lia | exact Hj].
  - intros x y legacy f w Ha Hw.
    destruct (translate_record_kept_inv _ _ _ _ Ha Hw) as (Hlen & _ & ->).
    simpl remapped. split; [|split].
    + rewrite column_insert_ne by (rewrite ?length_insert; lia).
      apply column_insert_eq. lia.
    + apply column_insert_eq. rewrite length_insert. lia.
    + intros j Hj1 Hj2.
      rewrite column_insert_ne by (rewrite ?length_insert; lia || assumption).
      apply column_insert_ne; [lia | exact Hj1].
Qed.

Lemma chain_column_is_22_witness :
  is_atom_record (py "ATOM      1  N   MET A   1") = true /\
  (22 <= length (py "ATOM      1  N   MET A   1"))%nat /\
  (kept (py "B") (Some [65]) (py "ATOM      1  N   MET A   1") <->
   column 22 (py "ATOM      1  N   MET A   1") = Some 65).
Proof.
  assert (Hlen : (22 <= length (py "ATOM      1  N   MET A   1"))%nat)
    by (simpl; lia).
  split; [reflexivity|]. split; [exact Hlen|].
  exact (proj1 chain_column_is_22 (py "B") 65 (py "ATOM      1  N   MET A   1")
           eq_refl Hlen).
Defined.

(** On an input file whose lines the csv reader hands over whole and in
    which no ATOM/HETATM line is shorter than 22 characters, the call
    returns without an exception and the output file is made, in the order
    of the input, of nothing for every ATOM/HETATM line whose column 22
    differs from the legacy code, of one rewritten line for every
    ATOM/HETATM line whose column 22 equals it, and of a copy of every
    other line. *)
Lemma remapper_on_plain_file
    (self : PdbFile) (pdbFileIn chain0 : pystr) (newChain : option pystr)
    (fs : FS) (c text : pystr) :
  chain self = Some c -> fs !! pdbFileIn = Some text ->
  remapped_path self c <> pdbFileIn ->
  Forall (fun l => plain_line l = true) (readlines text) ->
  Forall (fun l => short_atom_record l = false) (readlines text) ->
  parsePdbAndTranslateChain self pdbFileIn chain0 newChain fs =
    (<[remapped_path self c :=
         concat (map (contribution chain0 newChain) (readlines text))]> fs,
     Ok (set_out_file (remapped_path self c) self)).
Proof.
  intros Hc Hin Hne Hp Hs.
  rewrite (parsePdbAndTranslateChain_run self pdbFileIn chain0 newChain fs c text)
    by assumption.
  rewrite (translate_plain_file _ chain0 newChain Hp Hs). reflexivity.
Qed.

(** C4 on a file in which a double quote opens a csv field: the reader
    takes the lines that follow into the quoted field.  With the quote at
    the start of a line, the atom lines after it are part of the first
    field of one long record: the line of the other chain [C] is written
    to the output and the line of the legacy chain [A] is written as it
    is, not rewritten.  With the quote after a comma, the atom lines after
    it are part of a second field, which the loop never looks at: the line
    of the legacy chain [A] gives no output line.  Both calls return
    without an exception. *)
Theorem atom_lines_inside_a_quoted_field :
  parsePdbAndTranslateChain Scenario.request_B Scenario.member (py "B") (Some (py "A"))
    {[ Scenario.member :=
         QUOTE :: ln "REMARK   1 OPEN" ++ ln "ATOM      1  N   MET C   1" ++
         ln "ATOM      2  N   MET A   1" ++ ln "END" ]} =
    (<[ py "/tmp/1abc_B.pdb" :=
          ln "REMARK   1 OPEN" ++ ln "ATOM      1  N   MET C   1" ++
          ln "ATOM      2  N   MET A   1" ++ ln "END" ++ [LF] ]>
       {[ Scenario.member :=
            QUOTE :: ln "REMARK   1 OPEN" ++ ln "ATOM      1  N   MET C   1" ++
            ln "ATOM      2  N   MET A   1" ++ ln "END" ]},
     Ok (set_out_file (py "/tmp/1abc_B.pdb") Scenario.request_B)) /\
  parsePdbAndTranslateChain Scenario.request_B Scenario.member (py "B") (Some (py "A"))
    {[ Scenario.member :=
         ln "HEADER    BUNDLE" ++ py "TITLE     DIMER," ++ QUOTE :: ln "OPEN FORM" ++
         ln "ATOM      1  N   MET A   1" ++ ln "END" ]} =
    (<[ py "/tmp/1abc_B.pdb" := ln "HEADER    BUNDLE" ++ ln "TITLE     DIMER" ]>
       {[ Scenario.member :=
            ln "HEADER    BUNDLE" ++ py "TITLE     DIMER," ++ QUOTE :: ln "OPEN FORM" ++
            ln "ATOM      1  N   MET A   1" ++ ln "END" ]},
     Ok (set_out_file (py "/tmp/1abc_B.pdb") Scenario.request_B)).
Proof. split; vm_compute; reflexivity. Qed.

(** C6 on a short atom line after a line that opens a double quote: the
    csv reader takes the short line into the quoted field of the record
    begun before it, so the loop never sees a record that starts with
    ATOM; no exception is raised, the call returns, and the text of the
    short line is written to the output file. *)
Theorem short_atom_line_inside_a_quoted_field :
  parsePdbAndTranslateChain Scenario.request_B Scenario.member (py "B") (Some (py "A"))
    {[ Scenario.member :=
         QUOTE :: ln "REMARK   1 OPEN" ++ ln "ATOM      1  N" ++ ln "END" ]} =
    (<[ py "/tmp/1abc_B.pdb" :=
          ln "REMARK   1 OPEN" ++ ln "ATOM      1  N" ++ ln "END" ++ [LF] ]>
       {[ Scenario.member :=
            QUOTE :: ln "REMARK   1 OPEN" ++ ln "ATOM      1  N" ++ ln "END" ]},
     Ok (set_out_file (py "/tmp/1abc_B.pdb") Scenario.request_B)).
Proof. vm_compute. reflexivity. Qed.

(** C1 on an atom line that holds a comma: the csv reader cuts the record
    at the comma, so the call rewrites the chain column and writes the line
    out without the comma and what followed it, where the claim has all
    other characters of the line unchanged. *)
Theorem atom_line_cut_at_comma :
  parsePdbAndTranslateChain Scenario.request_B Scenario.member (py "B") (Some (py "A"))
    {[ Scenario.member := ln "ATOM      1  N   MET A   1      27.340,24.430" ]} =
    (<[ py "/tmp/1abc_B.pdb" := ln "ATOM      1  N   MET B   1      27.340" ]>
       {[ Scenario.member := ln "ATOM      1  N   MET A   1      27.340,24.430" ]},
     Ok (set_out_file (py "/tmp/1abc_B.pdb") Scenario.request_B)).
Proof. vm_compute. reflexivity. Qed.

(** C5 on a line with a comma and on a blank line: of a non-atom line with
    a comma only the part before the comma is copied to the output file,
    and a blank line, for which the csv reader yields an empty row, ends the
    call with [IndexError] when [line[0]] is read, after the copies of the
    lines before it. *)
Theorem other_line_cut_at_comma_and_blank_line_raises :
  parsePdbAndTranslateChain Scenario.request_B Scenario.member (py "B") (Some (py "A"))
    {[ Scenario.member := ln "REMARK   2 RESOLUTION, ANGSTROMS" ]} =
    (<[ py "/tmp/1abc_B.pdb" := ln "REMARK   2 RESOLUTION" ]>
       {[ Scenario.member := ln "REMARK   2 RESOLUTION, ANGSTROMS" ]},
     Ok (set_out_file (py "/tmp/1abc_B.pdb") Scenario.request_B)) /\
  parsePdbAndTranslateChain Scenario.request_B Scenario.member (py "B") (Some (py "A"))
    {[ Scenario.member := ln "HEADER    BUNDLE" ++ ln "" ++ ln "END" ]} =
    (<[ py "/tmp/1abc_B.pdb" := ln "HEADER    BUNDLE" ]>
       {[ Scenario.member := ln "HEADER    BUNDLE" ++ ln "" ++ ln "END" ]},
     Raise IndexError).
Proof. split; vm_compute; reflexivity. Qed.



(** * Properties of the retrieval orchestrator *)

Section DownloadFacts.

Variable fetch_view : pystr -> result pystr.
Variable fetch_bundle : pystr -> result (list (pystr * pystr)).
Variable filter_by_chain : PdbFile -> IO PdbFile.
Variable filter_by_atom : PdbFile -> IO PdbFile.
Variable glob_bundle : pystr -> pystr -> FS -> list pystr.
Variable lower : pystr -> pystr.

(** The bundle fallback up to the look-up of the member file: with the
    requested chain in neither table, [mapFile.get] gives [None] and the
    concatenation that builds the path of the member file raises. *)
Lemma download_bundle_absent (self : PdbFile) (c : pystr) (fs : FS)
    (members : list (pystr * pystr)) (text : pystr) (mF mC : gmap pystr pystr) :
  chain self = Some c ->
  fetch_bundle (pdbcode self) = Ok members ->
  fst (extractall (dir self) members fs)
    !! (dir self ++ py "/" ++ lower (pdbcode self) ++ py "-chain-id-mapping.txt")
    = Some text ->
  parsePdbBundleChainIdFile (readlines text) = Ok (mF, mC) ->
  mF !! c = None ->
  download_bundle fetch_bundle filter_by_chain glob_bundle lower self fs =
    (fst (extractall (dir self) members fs), Raise TypeError).
Proof.
  intros Hc Hb Ht Hp Hm.
  unfold download_bundle, io_bind, io_lift, open_read.
  rewrite Hc. simpl str_add. cbv iota beta.
  rewrite Hb.
  destruct (extractall (dir self) members fs) as [fs2 [[]|e]] eqn:Ex;
    [|discriminate Ex].
  simpl fst in Ht |- *. rewrite Ht, Hp. simpl. rewrite Hm. reflexivity.
Qed.

(** C7: in the bundle fallback, when the requested chain code is in
    neither of the tables read from the mapping file, [download] fails
    with an exception that reaches the caller ([TypeError], from joining
    the directory with the [None] that [mapFile.get] returns): no member
    file name is made up, nothing is remapped, and the file system is left
    as the unpacking of the bundle made it. *)
Theorem absent_chain_raises (self0 : PdbFile) (c : pystr) (fs fs1 : FS)
    (members : list (pystr * pystr)) (text : pystr) (mF mC : gmap pystr pystr) :
  chain self0 = Some c ->
  download_direct fetch_view filter_by_chain
    (set_out_file (dir self0 ++ py "/" ++ pdbcode self0 ++ py ".pdb") self0) fs
    = (fs1, Raise HTTPError) ->
  fetch_bundle (pdbcode self0) = Ok members ->
  fst (extractall (dir self0) members fs1)
    !! (dir self0 ++ py "/" ++ lower (pdbcode self0) ++ py "-chain-id-mapping.txt")
    = Some text ->
  parsePdbBundleChainIdFile (readlines text) = Ok (mF, mC) ->
  mF !! c = None \/ mC !! c = None ->
  download fetch_view fetch_bundle filter_by_chain filter_by_atom glob_bundle lower
    self0 fs
  = (fst (extractall (dir self0) members fs1), Raise TypeError).
Proof.
  intros Hc Hd Hb Ht Hp Hm.
  assert (HmF : mF !! c = None).
  { destruct Hm as [H|H]; [exact H | apply (parse_same_keys _ _ _ Hp); exact H]. }
  unfold download. rewrite Hd.
  rewrite (download_bundle_absent _ c fs1 members text mF mC); auto.
Qed.

End DownloadFacts.

Lemma absent_chain_raises_witness :
  chain Scenario.request_Z = Some (py "Z") /\
  download_direct Scenario.fetch_view Scenario.filter
    (set_out_file (py "/tmp/1abc.pdb") Scenario.request_Z) ∅ = (∅, Raise HTTPError) /\
  Scenario.fetch_bundle (py "1abc") = Ok Scenario.members /\
  fst (extractall (py "/tmp") Scenario.members ∅)
    !! (py "/tmp/1abc-chain-id-mapping.txt") = Some Scenario.mapping_text /\
  parsePdbBundleChainIdFile (readlines Scenario.mapping_text) =
    Ok ({[ py "B" := py "1abc-pdb-bundle1.pdb" ]}, {[ py "B" := py "A" ]}) /\
  download Scenario.fetch_view Scenario.fetch_bundle Scenario.filter Scenario.filter
    Scenario.glob_bundle Scenario.lower Scenario.request_Z ∅
  = (fst (extractall (py "/tmp") Scenario.members ∅), Raise TypeError).
Proof.
  assert (H4 : fst (extractall (py "/tmp") Scenario.members ∅)
                 !! (py "/tmp/1abc-chain-id-mapping.txt") = Some Scenario.mapping_text)
    by (vm_compute; reflexivity).
  assert (H5 : parsePdbBundleChainIdFile (readlines Scenario.mapping_text) =
                 Ok ({[ py "B" := py "1abc-pdb-bundle1.pdb" ]}, {[ py "B" := py "A" ]}))
    by (vm_compute; reflexivity).
  split; [reflexivity|]. split; [reflexivity|]. split; [reflexivity|].
  split; [exact H4|]. split; [exact H5|].
  exact (absent_chain_raises Scenario.fetch_view Scenario.fetch_bundle Scenario.filter
           Scenario.filter Scenario.glob_bundle Scenario.lower
           Scenario.request_Z (py "Z") ∅ ∅ Scenario.members Scenario.mapping_text
           _ _ eq_refl eq_refl eq_refl H4 H5 (or_introl eq_refl)).
Defined.

(** * Further properties of the mapping reader *)

Section MappingReaderMore.

Implicit Types (st : MapState) (raw : pystr) (lines : list pystr).

Lemma map_step_Ok_outside st raw :
  is_header raw = false -> actualFile st = [] -> map_step st raw = Ok st.
Proof.
  intros Hh Ha. unfold map_step. fold (clean raw).
  unfold is_header in Hh. rewrite Hh, Ha. reflexivity.
Qed.

Lemma map_loop_raises st lines e : map_loop st lines = Raise e -> e = IndexError.
Proof.
  revert st. induction lines as [|raw lines IH]; intros st H; simpl in H; [discriminate|].
  destruct (streq raw []); [discriminate|].
  destruct (map_step_cases st raw) as [E|(st' & E & _)]; rewrite E in H; simpl in H.
  - congruence.
  - apply (IH st'). exact H.
Qed.

Lemma map_step_two_tokens st raw :
  is_header raw = false -> (2 <= length (split raw))%nat ->
  exists st', map_step st raw = Ok st' /\ actualFile st' = actualFile st.
Proof.
  intros Hh Hlen. unfold map_step. fold (clean raw).
  unfold is_header in Hh. rewrite Hh.
  destruct (negb (streq (actualFile st) []) && negb (streq (clean raw) []));
    [|exists st; auto].
  unfold clean. rewrite split_strip.
  destruct (split raw) as [|v [|k m]]; simpl in Hlen; try lia.
  eexists. split; reflexivity.
Qed.

Lemma map_loop_preamble st pre rest :
  actualFile st = [] ->
  Forall (fun raw => raw <> [] /\ is_header raw = false) pre ->
  map_loop st (pre ++ rest) = map_loop st rest.
Proof.
  intros Ha H. induction H as [|raw pre [Hne Hh] _ IH]; [reflexivity|].
  rewrite <- app_comm_cons, map_loop_cons by exact Hne.
  rewrite map_step_Ok_outside by assumption. exact IH.
Qed.

(** Every value of [mapFile] is the current member file of some moment. *)
Lemma map_loop_values (P : pystr -> Prop) st lines st' :
  (forall h, h ∈ lines -> is_header h = true -> P (member_name h)) ->
  (actualFile st <> [] -> P (actualFile st)) ->
  (forall k v, mapFile st !! k = Some v -> P v) ->
  map_loop st lines = Ok st' ->
  forall k v, mapFile st' !! k = Some v -> P v.
Proof.
  revert st. induction lines as [|raw lines IH]; intros st Hh Ha Hm E.
  - injection E as <-. exact Hm.
  - simpl in E. destruct (streq raw []); [injection E as <-; exact Hm|].
    destruct (map_step st raw) as [st1|] eqn:E1; simpl in E; [|discriminate].
    apply (IH st1); [| | |exact E].
    + intros h Hin. apply Hh. right. exact Hin.
    + unfold map_step in E1. fold (clean raw) in E1.
      destruct (0 <=? find (clean raw) bundle_tag)%Z eqn:Et.
      * injection E1 as <-. simpl. intros _. apply (Hh raw); [left | exact Et].
      * destruct (_ && _).
        -- destruct (getitem _ 1); simpl in E1; [|discriminate].
           destruct (getitem _ 0); simpl in E1; [|discriminate].
           injection E1 as <-. exact Ha.
        -- injection E1 as <-. exact Ha.
    + unfold map_step in E1. fold (clean raw) in E1.
      destruct (0 <=? find (clean raw) bundle_tag)%Z.
      * injection E1 as <-. exact Hm.
      * destruct (negb (streq (actualFile st) []) && negb (streq (clean raw) [])) eqn:Eb.
        -- destruct (getitem _ 1) as [k1|]; simpl in E1; [|discriminate].
           destruct (getitem _ 0) as [v1|]; simpl in E1; [|discriminate].
           injection E1 as <-. simpl. intros k v.
           destruct (decide (strip k1 = k)) as [->|Hne].
           ++ rewrite lookup_insert_eq. intros [= <-]. apply Ha.
              apply andb_true_iff in Eb as [Eb _]. apply negb_true_iff in Eb.
              apply streq_false in Eb. exact Eb.
           ++ rewrite lookup_insert_ne by exact Hne. apply Hm.
        -- injection E1 as <-. exact Hm.
Qed.

End MappingReaderMore.

(** X1: the two tables the mapping reader returns always have the same
    keys: a requested code has a member file exactly when it has a legacy
    code. *)
Theorem tables_share_their_keys (lines : list pystr) (mF mC : gmap pystr pystr) :
  parsePdbBundleChainIdFile lines = Ok (mF, mC) -> dom mF = dom mC.
Proof.
  intros H. apply set_eq. intros k. rewrite !elem_of_dom.
  rewrite <- !not_eq_None_Some.
  pose proof (parse_same_keys lines mF mC H k). tauto.
Qed.

Lemma tables_share_their_keys_witness :
  parsePdbBundleChainIdFile
    [ln "1abc-pdb-bundle1.pdb:"; ln "A B"; ln "1abc-pdb-bundle2.pdb:"; ln "C D"] =
    Ok ({[ py "B" := py "1abc-pdb-bundle1.pdb"; py "D" := py "1abc-pdb-bundle2.pdb" ]},
        {[ py "B" := py "A"; py "D" := py "C" ]}) /\
  dom ({[ py "B" := py "1abc-pdb-bundle1.pdb"; py "D" := py "1abc-pdb-bundle2.pdb" ]}
        : gmap pystr pystr) =
  dom ({[ py "B" := py "A"; py "D" := py "C" ]} : gmap pystr pystr).
Proof.
  assert (H : parsePdbBundleChainIdFile
                [ln "1abc-pdb-bundle1.pdb:"; ln "A B"; ln "1abc-pdb-bundle2.pdb:"; ln "C D"] =
              Ok ({[ py "B" := py "1abc-pdb-bundle1.pdb";
                     py "D" := py "1abc-pdb-bundle2.pdb" ]},
                  {[ py "B" := py "A"; py "D" := py "C" ]}))
    by (vm_compute; reflexivity).
  split; [exact H|].
  exact (tables_share_their_keys _ _ _ H).
Defined.

(** X2: the mapping reader raises nothing but [IndexError], whatever the
    lines of the file are. *)
Theorem mapping_reader_raises_only_IndexError (lines : list pystr) (e : exn) :
  parsePdbBundleChainIdFile lines = Raise e -> e = IndexError.
Proof.
  unfold parsePdbBundleChainIdFile. intros H.
  destruct (map_loop map_init lines) as [st|e'] eqn:E; simpl in H; [discriminate|].
  injection H as <-. apply (map_loop_raises _ _ _ E).
Qed.

Lemma mapping_reader_raises_only_IndexError_witness :
  parsePdbBundleChainIdFile [ln "1abc-pdb-bundle1.pdb:"; ln "A"] = Raise IndexError /\
  IndexError = IndexError.
Proof.
  assert (H : parsePdbBundleChainIdFile [ln "1abc-pdb-bundle1.pdb:"; ln "A"] =
              Raise IndexError) by reflexivity.
  split; [exact H|].
  exact (mapping_reader_raises_only_IndexError _ _ H).
Defined.

(** X3: the mapping reader returns tables for every file in which each
    line is a header line, a blank line or a line of at least two
    whitespace-separated tokens; tokens after the second are not looked
    at. *)
Theorem mapping_reader_returns_on_two_token_lines (lines : list pystr) :
  Forall (fun raw => is_header raw = true \/ is_blank raw = true \/
                     (2 <= length (split raw))%nat) lines ->
  exists mF mC, parsePdbBundleChainIdFile lines = Ok (mF, mC).
Proof.
  intros H. unfold parsePdbBundleChainIdFile.
  assert (Hl : forall st, exists st', map_loop st lines = Ok st').
  { induction H as [|raw lines Hraw _ IH]; intros st; [exists st; reflexivity|].
    simpl. destruct (streq raw []); [exists st; reflexivity|].
    destruct (is_header raw) eqn:Hh.
    - rewrite map_step_header by exact Hh. cbn [bind]. apply IH.
    - destruct Hraw as [Hraw|[Hb|Hlen]]; [discriminate| |].
      + rewrite map_step_blank by assumption. cbn [bind]. apply IH.
      + destruct (map_step_two_tokens st raw Hh Hlen) as (st1 & -> & _).
        cbn [bind]. apply IH. }
  destruct (Hl map_init) as [st' ->]. cbn [bind]. eauto.
Qed.

Lemma mapping_reader_returns_on_two_token_lines_witness :
  Forall (fun raw => is_header raw = true \/ is_blank raw = true \/
                     (2 <= length (split raw))%nat)
    [ln "    New chain ID            Original chain ID"; ln "";
     ln "1abc-pdb-bundle1.pdb:"; ln "           A                       AA extra"] /\
  exists mF mC,
    parsePdbBundleChainIdFile
      [ln "    New chain ID            Original chain ID"; ln "";
       ln "1abc-pdb-bundle1.pdb:"; ln "           A                       AA extra"] =
      Ok (mF, mC).
Proof.
  assert (H : Forall (fun raw => is_header raw = true \/ is_blank raw = true \/
                                 (2 <= length (split raw))%nat)
                [ln "    New chain ID            Original chain ID"; ln "";
                 ln "1abc-pdb-bundle1.pdb:";
                 ln "           A                       AA extra"]).
  { apply List.Forall_cons; [right; right; vm_compute; lia|].
    apply List.Forall_cons; [right; left; reflexivity|].
    apply List.Forall_cons; [left; reflexivity|].
    apply List.Forall_cons; [right; right; vm_compute; lia|].
    apply List.Forall_nil. }
  split; [exact H|].
  exact (mapping_reader_returns_on_two_token_lines _ H).
Defined.

(** X4: the lines before the first header line are passed over, whatever
    they hold: the tables are those of the file without them. *)
Theorem lines_before_first_header_are_ignored (pre rest : list pystr) :
  Forall (fun raw => raw <> [] /\ is_header raw = false) pre ->
  parsePdbBundleChainIdFile (pre ++ rest) = parsePdbBundleChainIdFile rest.
Proof.
  intros H. unfold parsePdbBundleChainIdFile.
  rewrite (map_loop_preamble map_init pre rest eq_refl H). reflexivity.
Qed.

Lemma lines_before_first_header_are_ignored_witness :
  Forall (fun raw : pystr => raw <> [] /\ is_header raw = false)
    [ln "    New chain ID            Original chain ID"; ln "X"] /\
  parsePdbBundleChainIdFile
    ([ln "    New chain ID            Original chain ID"; ln "X"] ++
     [ln "1abc-pdb-bundle1.pdb:"; ln "A B"]) =
  parsePdbBundleChainIdFile [ln "1abc-pdb-bundle1.pdb:"; ln "A B"].
Proof.
  assert (H : Forall (fun raw : pystr => raw <> [] /\ is_header raw = false)
                [ln "    New chain ID            Original chain ID"; ln "X"]).
  { apply List.Forall_cons; [split; [discriminate | reflexivity]|].
    apply List.Forall_cons; [split; [discriminate | reflexivity]|].
    apply List.Forall_nil. }
  split; [exact H|].
  exact (lines_before_first_header_are_ignored _ _ H).
Defined.

(** X5: every member-file name in [mapFile] is the name given by a header
    line of the file, and none is empty. *)
Theorem member_files_come_from_headers
    (lines : list pystr) (mF mC : gmap pystr pystr) (k v : pystr) :
  parsePdbBundleChainIdFile lines = Ok (mF, mC) ->
  mF !! k = Some v ->
  v <> [] /\ exists h, h ∈ lines /\ is_header h = true /\ v = member_name h.
Proof.
  unfold parsePdbBundleChainIdFile. intros H Hk.
  destruct (map_loop map_init lines) as [st|] eqn:E; simpl in H; [|discriminate].
  injection H as <- <-.
  refine (map_loop_values
            (fun v => v <> [] /\ exists h, h ∈ lines /\ is_header h = true /\ v = member_name h)
            map_init lines st _ _ _ E k v Hk).
  - intros h Hin Hh. split; [apply header_member_nonempty; exact Hh|]. eauto.
  - simpl. congruence.
  - simpl. intros k0 v0 H0. rewrite lookup_empty in H0. discriminate.
Qed.

Lemma member_files_come_from_headers_witness :
  parsePdbBundleChainIdFile [ln "1abc-pdb-bundle1.pdb:"; ln "A B"] =
    Ok ({[ py "B" := py "1abc-pdb-bundle1.pdb" ]}, {[ py "B" := py "A" ]}) /\
  ({[ py "B" := py "1abc-pdb-bundle1.pdb" ]} : gmap pystr pystr) !! py "B" =
    Some (py "1abc-pdb-bundle1.pdb") /\
  py "1abc-pdb-bundle1.pdb" <> [] /\
  exists h, h ∈ [ln "1abc-pdb-bundle1.pdb:"; ln "A B"] /\ is_header h = true /\
            py "1abc-pdb-bundle1.pdb" = member_name h.
Proof.
  assert (H : parsePdbBundleChainIdFile [ln "1abc-pdb-bundle1.pdb:"; ln "A B"] =
              Ok ({[ py "B" := py "1abc-pdb-bundle1.pdb" ]}, {[ py "B" := py "A" ]}))
    by (vm_compute; reflexivity).
  assert (H2 : ({[ py "B" := py "1abc-pdb-bundle1.pdb" ]} : gmap pystr pystr) !! py "B" =
               Some (py "1abc-pdb-bundle1.pdb")) by apply lookup_singleton_eq.
  split; [exact H|]. split; [exact H2|].
  exact (member_files_come_from_headers _ _ _ _ _ H H2).
Defined.

(** * Further properties of the chain remapper *)

Section RemapperMore.

Implicit Types (chain f : pystr) (newChain : option pystr) (r : Reader).










(** [parsePdbAndTranslateChain] once both files are open: the loop runs on
    the text the input path holds after the output was emptied. *)
Lemma parsePdbAndTranslateChain_opened (self : PdbFile) (pdbFileIn chain0 : pystr)
    (newChain : option pystr) (fs : FS) (c text : pystr) :
  chain self = Some c -> fs !! pdbFileIn = Some text ->
  exists text',
    parsePdbAndTranslateChain self pdbFileIn chain0 newChain fs =
      (<[remapped_path self c :=
           written (translate_lines (readlines text') chain0 newChain)]> fs,
       match raised (translate_lines (readlines text') chain0 newChain) with
       | None => Ok (set_out_file (remapped_path self c) self)
       | Some e => Raise e
       end).
Proof.
  intros Hc Hin.
  unfold parsePdbAndTranslateChain, io_bind, io_lift, open_read.
  rewrite Hc. unfold str_add. cbv iota beta. rewrite Hin.
  fold (remapped_path self c). cbn [out_file set_out_file].
  exists (default [] (<[remapped_path self c := []]> fs !! pdbFileIn)).
  rewrite insert_insert_eq. reflexivity.
Qed.

End RemapperMore.

(** X6: [parsePdbAndTranslateChain] changes no file but its output file,
    whether it returns or raises; with the input file missing it changes
    none at all. *)
Theorem remapper_touches_only_its_output
    (self : PdbFile) (pdbFileIn chain0 : pystr) (newChain : option pystr)
    (fs : FS) (c p : pystr) :
  chain self = Some c -> p <> remapped_path self c ->
  fst (parsePdbAndTranslateChain self pdbFileIn chain0 newChain fs) !! p = fs !! p /\
  (fs !! pdbFileIn = None ->
   parsePdbAndTranslateChain self pdbFileIn chain0 newChain fs =
     (fs, Raise FileNotFoundError)).
Proof.
  intros Hc Hp. destruct (fs !! pdbFileIn) as [text|] eqn:Hin.
  - destruct (parsePdbAndTranslateChain_opened self pdbFileIn chain0 newChain fs c text
                Hc Hin) as [text' ->].
    split; [|discriminate]. simpl. apply lookup_insert_ne. congruence.
  - assert (E : parsePdbAndTranslateChain self pdbFileIn chain0 newChain fs =
                (fs, Raise FileNotFoundError)).
    { unfold parsePdbAndTranslateChain, io_bind, io_lift, open_read.
      rewrite Hc. unfold str_add. cbv iota beta. rewrite Hin. reflexivity. }
    rewrite E. auto.
Qed.

Lemma remapper_touches_only_its_output_witness :
  chain Scenario.request_B = Some (py "B") /\
  py "/tmp/other.txt" <> remapped_path Scenario.request_B (py "B") /\
  fst (parsePdbAndTranslateChain Scenario.request_B Scenario.member (py "B")
         (Some (py "A"))
         {[ Scenario.member := Scenario.two_chain_text; py "/tmp/other.txt" := py "x" ]})
    !! py "/tmp/other.txt" =
  ({[ Scenario.member := Scenario.two_chain_text; py "/tmp/other.txt" := py "x" ]} : FS)
    !! py "/tmp/other.txt".
Proof.
  assert (H2 : py "/tmp/other.txt" <> remapped_path Scenario.request_B (py "B"))
    by (vm_compute; discriminate).
  split; [reflexivity|]. split; [exact H2|].
  exact (proj1 (remapper_touches_only_its_output Scenario.request_B Scenario.member
                  (py "B") (Some (py "A")) _ (py "B") (py "/tmp/other.txt") eq_refl H2)).
Defined.

(** X7: when the output path is the input path, the input is emptied
    before it is read: the call returns without an exception and leaves an
    empty file. *)
Theorem remapper_on_its_own_output_empties_it
    (self : PdbFile) (pdbFileIn chain0 : pystr) (newChain : option pystr)
    (fs : FS) (c text : pystr) :
  chain self = Some c -> fs !! pdbFileIn = Some text ->
  remapped_path self c = pdbFileIn ->
  parsePdbAndTranslateChain self pdbFileIn chain0 newChain fs =
    (<[pdbFileIn := []]> fs, Ok (set_out_file pdbFileIn self)).
Proof.
  intros Hc Hin Heq.
  unfold parsePdbAndTranslateChain, io_bind, io_lift, open_read.
  rewrite Hc. unfold str_add. cbv iota beta. rewrite Hin.
  fold (remapped_path self c). rewrite Heq. cbn [out_file set_out_file].
  rewrite lookup_insert_eq. cbn [default].
  rewrite insert_insert_eq. reflexivity.
Qed.

Lemma remapper_on_its_own_output_empties_it_witness :
  chain Scenario.request_B = Some (py "B") /\
  ({[ py "/tmp/1abc_B.pdb" := Scenario.two_chain_text ]} : FS) !! py "/tmp/1abc_B.pdb" =
    Some Scenario.two_chain_text /\
  remapped_path Scenario.request_B (py "B") = py "/tmp/1abc_B.pdb" /\
  parsePdbAndTranslateChain Scenario.request_B (py "/tmp/1abc_B.pdb") (py "B")
    (Some (py "A")) {[ py "/tmp/1abc_B.pdb" := Scenario.two_chain_text ]} =
    (<[ py "/tmp/1abc_B.pdb" := [] ]> {[ py "/tmp/1abc_B.pdb" := Scenario.two_chain_text ]},
     Ok (set_out_file (py "/tmp/1abc_B.pdb") Scenario.request_B)).
Proof.
  assert (H2 : ({[ py "/tmp/1abc_B.pdb" := Scenario.two_chain_text ]} : FS)
                 !! py "/tmp/1abc_B.pdb" = Some Scenario.two_chain_text)
    by apply lookup_singleton_eq.
  split; [reflexivity|]. split; [exact H2|]. split; [reflexivity|].
  exact (remapper_on_its_own_output_empties_it Scenario.request_B (py "/tmp/1abc_B.pdb")
           (py "B") (Some (py "A")) _ (py "B") _ eq_refl H2 eq_refl).
Defined.





(** * Further properties of the retrieval orchestrator *)

Section DownloadMore.

Variable fetch_view : pystr -> result pystr.
Variable fetch_bundle : pystr -> result (list (pystr * pystr)).
Variable filter_by_chain : PdbFile -> IO PdbFile.
Variable filter_by_atom : PdbFile -> IO PdbFile.
Variable glob_bundle : pystr -> pystr -> FS -> list pystr.
Variable lower : pystr -> pystr.

(** X10: when the entry is not served as one file and no chain was asked
    for, [download] raises [TypeError] (from the message it builds with
    [self.chain]) before the bundle is fetched: no file is written,
    changed or removed.  ([makedirs] has run by then and may have created
    the directory; directories are not part of the file map.) *)
Theorem bundle_fallback_without_chain_raises (self0 : PdbFile) (fs : FS) :
  chain self0 = None ->
  fetch_view (pdbcode self0) = Raise HTTPError ->
  download fetch_view fetch_bundle filter_by_chain filter_by_atom glob_bundle lower
    self0 fs = (fs, Raise TypeError).
Proof.
  intros Hc Hv. unfold download, download_direct, download_bundle, io_bind, io_lift.
  cbn [pdbcode chain set_out_file]. rewrite Hv, Hc. reflexivity.
Qed.


End DownloadMore.

Lemma bundle_fallback_without_chain_raises_witness :
  chain (mkPdbFile (py "/tmp") (py "1abc") None None []) = None /\
  Scenario.fetch_view (py "1abc") = Raise HTTPError /\
  download Scenario.fetch_view Scenario.fetch_bundle Scenario.filter Scenario.filter
    Scenario.glob_bundle Scenario.lower (mkPdbFile (py "/tmp") (py "1abc") None None []) ∅
  = (∅, Raise TypeError).
Proof.
  split; [reflexivity|]. split; [reflexivity|].
  exact (bundle_fallback_without_chain_raises Scenario.fetch_view Scenario.fetch_bundle
           Scenario.filter Scenario.filter Scenario.glob_bundle Scenario.lower
           (mkPdbFile (py "/tmp") (py "1abc") None None []) ∅ eq_refl eq_refl).
Defined.


(** * The older [filter_by_chain] *)

Section LegacyFacts.

Implicit Types (linesep chain line text cur : pystr) (lines : list pystr).








(** *** Texts and their lines *)

















(** A path in which [old] does not occur is left as it is. *)
Lemma replace_from_absent old new s (i : Z) :
  (0 <= i)%Z -> (find_from old s i < 0)%Z -> replace_from old new 0 s = s.
Proof.
  revert i. induction s as [|c s IH]; intros i Hi H; [reflexivity|].
  simpl in H |- *. destruct (startswith old (c :: s)); [lia|].
  f_equal. apply (IH (i + 1)%Z); [lia | exact H].
Qed.

Lemma replace_absent s old new : (find s old < 0)%Z -> replace s old new = s.
Proof. apply replace_from_absent. lia. Qed.

End LegacyFacts.

Section LegacyProperties.

Implicit Types (linesep pdbfile chain text : pystr) (fs : FS).







(** X15. The older [filter_by_chain] on a path in which [.pdb] does not
    occur: the output path is the input path, so whatever the file held
    is lost; the call leaves the file empty (creating it if it was not
    there) and returns the same path, without an exception. *)
Theorem filter_without_suffix_empties_the_file
    (linesep pdbfile chain : pystr) (fs : FS) :
  (find pdbfile (py ".pdb") < 0)%Z ->
  Legacy.filter_by_chain linesep pdbfile chain fs = (<[pdbfile := []]> fs, Ok pdbfile).
Proof.
  intros H. unfold Legacy.filter_by_chain.
  rewrite (replace_absent pdbfile (py ".pdb") _ H). cbv zeta.
  rewrite lookup_insert_eq, insert_insert_eq. reflexivity.
Qed.

Lemma filter_without_suffix_empties_the_file_witness :
  let fs : FS := {[ py "/tmp/1abc.ent" := LegacyScenario.two_chain_text ]} in
  (find (py "/tmp/1abc.ent") (py ".pdb") < 0)%Z /\
  Legacy.filter_by_chain [LF] (py "/tmp/1abc.ent") (py "A") fs =
    (<[py "/tmp/1abc.ent" := []]> fs, Ok (py "/tmp/1abc.ent")).
Proof.
  cbv zeta.
  assert (H : (find (py "/tmp/1abc.ent") (py ".pdb") < 0)%Z) by (vm_compute; reflexivity).
  split; [exact H|].
  exact (filter_without_suffix_empties_the_file [LF] (py "/tmp/1abc.ent") (py "A") _ H).
Defined.

End LegacyProperties.

(** * The searches on the PDBe index *)

Section SolrFacts.

Implicit Types (a b c x : pystr) (l ids : list pystr) (d : Solr.Document)
  (docs pre post : list Solr.Document).

Lemma str_leb_refl a : Solr.str_leb a a = true.
Proof.
  induction a as [|c a IH]; [reflexivity|].
  simpl. rewrite N.ltb_irrefl, N.eqb_refl. exact IH.
Qed.

Lemma str_leb_total a b : Solr.str_leb a b = false -> Solr.str_leb b a = true.
Proof.
  revert b. induction a as [|c a IH]; intros [|e b]; simpl; try discriminate; try reflexivity.
  destruct (N.ltb_spec c e) as [H1|H1]; [discriminate|].
  destruct (N.eqb_spec c e) as [H2|H2].
  - subst e. rewrite N.ltb_irrefl, N.eqb_refl. apply IH.
  - intros _. assert (E : (e <? c) = true) by (apply N.ltb_lt; lia).
    rewrite E. reflexivity.
Qed.

Lemma str_leb_trans a b c :
  Solr.str_leb a b = true -> Solr.str_leb b c = true -> Solr.str_leb a c = true.
Proof.
  revert b c. induction a as [|x a IH]; intros [|y b] [|z c]; simpl;
    try discriminate; try reflexivity.
  destruct (N.ltb_spec x y) as [Hxy|Hxy].
  - intros _. destruct (N.ltb_spec y z) as [Hyz|Hyz].
    + intros _. assert (E : (x <? z) = true) by (apply N.ltb_lt; lia).
      rewrite E. reflexivity.
    + destruct (N.eqb_spec y z) as [->|Hne]; [|discriminate].
      intros _. assert (E : (x <? z) = true) by (apply N.ltb_lt; lia).
      rewrite E. reflexivity.
  - destruct (N.eqb_spec x y) as [->|Hne]; [|discriminate].
    intros Hab. destruct (N.ltb_spec y z) as [Hyz|Hyz]; [reflexivity|].
    destruct (N.eqb_spec y z) as [->|Hne]; [|discriminate].
    intros Hbc. exact (IH b c Hab Hbc).
Qed.

Lemma insert_sorted_perm x l : Permutation (Solr.insert_sorted x l) (x :: l).
Proof.
  induction l as [|y r IH]; simpl; [reflexivity|].
  destruct (Solr.str_leb x y); [reflexivity|].
  rewrite IH. apply perm_swap.
Qed.

Lemma sorted_perm l : Permutation (Solr.sorted l) l.
Proof.
  induction l as [|x l IH]; simpl; [reflexivity|].
  rewrite insert_sorted_perm. apply perm_skip. exact IH.
Qed.

Lemma insert_sorted_sorted x l :
  StronglySorted str_le l -> StronglySorted str_le (Solr.insert_sorted x l).
Proof.
  induction 1 as [|y r Hr IH Hy]; simpl.
  - constructor; constructor.
  - destruct (Solr.str_leb x y) eqn:E.
    + constructor; [constructor; assumption|].
      constructor; [exact E|].
      eapply List.Forall_impl; [|exact Hy].
      intros z Hz. exact (str_leb_trans x y z E Hz).
    + constructor; [exact IH|].
      rewrite (insert_sorted_perm x r).
      constructor; [exact (str_leb_total x y E) | exact Hy].
Qed.

Lemma sorted_sorted l : StronglySorted str_le (Solr.sorted l).
Proof.
  induction l as [|x l IH]; simpl; [constructor|].
  apply insert_sorted_sorted. exact IH.
Qed.

Lemma first_sorted_least ids c :
  Solr.first (Solr.sorted ids) = Solr.Done c -> least c ids.
Proof.
  intros H. pose proof (sorted_perm ids) as Hp. pose proof (sorted_sorted ids) as Hs.
  destruct (Solr.sorted ids) as [|c' r]; [discriminate|].
  injection H as ->. split.
  - rewrite <- Hp. apply list_elem_of_here.
  - rewrite <- Hp. apply StronglySorted_inv in Hs as [_ Hr].
    constructor; [apply str_leb_refl | exact Hr].
Qed.

Lemma first_sorted_some ids :
  ids <> [] -> exists c, Solr.first (Solr.sorted ids) = Solr.Done c.
Proof.
  intros Hne. pose proof (sorted_perm ids) as Hp.
  destruct (Solr.sorted ids) as [|c r]; [|exists c; reflexivity].
  exfalso. apply Hne. apply Permutation_nil. exact Hp.
Qed.

Lemma unique_chains_acc docs (acc rs : list pystr) :
  Solr.unique_chains docs acc = Solr.Done rs ->
  exists rs', rs = acc ++ rs' /\ Forall2 least_chain_of docs rs'.
Proof.
  revert acc. induction docs as [|d docs IH]; intros acc H; simpl in H.
  - injection H as <-. exists []. rewrite app_nil_r. split; [reflexivity|constructor].
  - destruct (Solr.chain_id d) as [ids|] eqn:Ei; simpl in H; [|discriminate].
    destruct (Solr.first (Solr.sorted ids)) as [c|e] eqn:Ef; [|discriminate].
    destruct (IH _ H) as (rs' & -> & HF).
    exists (c :: rs'). split; [rewrite <- app_assoc; reflexivity|].
    constructor; [|exact HF].
    exists ids. split; [exact Ei | exact (first_sorted_least ids c Ef)].
Qed.

Lemma unique_chains_app pre rest (acc : list pystr) :
  Forall has_chains pre ->
  exists rs', Solr.unique_chains (pre ++ rest) acc = Solr.unique_chains rest (acc ++ rs').
Proof.
  intros H. revert acc. induction H as [|d pre (ids & Ei & Hne) _ IH]; intros acc.
  - exists []. rewrite app_nil_r. reflexivity.
  - simpl. rewrite Ei. simpl.
    destruct (first_sorted_some ids Hne) as [c ->].
    destruct (IH (acc ++ [c])) as [rs' ->].
    exists (c :: rs'). rewrite <- app_assoc. reflexivity.
Qed.

Lemma identical_chains_lacking chain docs :
  Forall (lacks_chain chain) docs -> Solr.identical_chains chain docs = Solr.Done [].
Proof.
  induction 1 as [|d docs (ids & Ei & Hn) _ IH]; [reflexivity|].
  simpl. rewrite Ei. simpl. rewrite bool_decide_eq_false_2 by exact Hn. exact IH.
Qed.

Lemma identical_chains_app chain pre rest :
  Forall (lacks_chain chain) pre ->
  Solr.identical_chains chain (pre ++ rest) = Solr.identical_chains chain rest.
Proof.
  induction 1 as [|d docs (ids & Ei & Hn) _ IH]; [reflexivity|].
  simpl. rewrite Ei. simpl. rewrite bool_decide_eq_false_2 by exact Hn. exact IH.
Qed.

Lemma released_codes_acc docs (acc : list Solr.entry) :
  Forall has_fields docs -> NoDup acc ->
  exists rs, Solr.released_pdbs false docs acc = Solr.Done rs /\ NoDup rs /\
    forall e, e ∈ rs <->
              e ∈ acc \/ exists d pid, d ∈ docs /\ Solr.pdb_id d = Some pid /\ e = Solr.Code pid.
Proof.
  intros H. revert acc. induction H as [|d docs ([pid Ep] & [ids Ei]) _ IH]; intros acc Hnd.
  - exists acc. split; [reflexivity|]. split; [exact Hnd|].
    intros e. split; [auto|]. intros [He|(d & pid & Hd & _)]; [exact He|].
    apply elem_of_nil in Hd. destruct Hd.
  - simpl. rewrite Ep, Ei. simpl.
    destruct (bool_decide (Solr.Code pid ∈ acc)) eqn:Eb.
    + apply bool_decide_eq_true in Eb.
      destruct (IH acc Hnd) as (rs & Hrs & Hnd' & Hel).
      exists rs. split; [exact Hrs|]. split; [exact Hnd'|].
      intros e. rewrite Hel. split.
      * intros [He|(d' & pid' & Hd' & Hp' & ->)]; [left; exact He|].
        right. exists d', pid'. split; [apply list_elem_of_further; exact Hd'|]. auto.
      * intros [He|(d' & pid' & Hd' & Hp' & ->)]; [left; exact He|].
        apply elem_of_cons in Hd' as [->|Hd'].
        -- left. rewrite Ep in Hp'. injection Hp' as <-. exact Eb.
        -- right. exists d', pid'. auto.
    + apply bool_decide_eq_false in Eb.
      assert (Hnd1 : NoDup (acc ++ [Solr.Code pid])).
      { apply NoDup_app. split; [exact Hnd|]. split; [|apply NoDup_singleton].
        intros e He Hin. apply list_elem_of_singleton in Hin. subst e. exact (Eb He). }
      destruct (IH _ Hnd1) as (rs & Hrs & Hnd' & Hel).
      exists rs. split; [exact Hrs|]. split; [exact Hnd'|].
      intros e. rewrite Hel, elem_of_app, list_elem_of_singleton. split.
      * intros [[He| ->]|(d' & pid' & Hd' & Hp' & ->)].
        -- left. exact He.
        -- right. exists d, pid. split; [apply list_elem_of_here|]. auto.
        -- right. exists d', pid'. split; [apply list_elem_of_further; exact Hd'|]. auto.
      * intros [He|(d' & pid' & Hd' & Hp' & ->)]; [left; left; exact He|].
        apply elem_of_cons in Hd' as [->|Hd'].
        -- left. right. rewrite Ep in Hp'. injection Hp' as <-. reflexivity.
        -- right. exists d', pid'. auto.
Qed.

Lemma released_pairs_acc docs (acc rs : list Solr.entry) :
  Solr.released_pdbs true docs acc = Solr.Done rs ->
  exists rs', rs = acc ++ rs' /\ Forall2 pair_of docs rs'.
Proof.
  revert acc. induction docs as [|d docs IH]; intros acc H; simpl in H.
  - injection H as <-. exists []. rewrite app_nil_r. split; [reflexivity|constructor].
  - destruct (Solr.pdb_id d) as [pid|] eqn:Ep; simpl in H; [|discriminate].
    destruct (Solr.chain_id d) as [ids|] eqn:Ei; simpl in H; [|discriminate].
    destruct (Solr.first (Solr.sorted ids)) as [c|e] eqn:Ef; [|discriminate].
    destruct (IH _ H) as (rs' & -> & HF).
    exists (Solr.Pair pid c :: rs'). split; [rewrite <- app_assoc; reflexivity|].
    constructor; [|exact HF].
    exists pid, c. split; [exact Ep|]. split; [|reflexivity].
    exists ids. split; [exact Ei | exact (first_sorted_least ids c Ef)].
Qed.

End SolrFacts.

Section SolrProperties.

Implicit Types (chain : pystr) (d : Solr.Document) (docs pre post : list Solr.Document).

(** X16. [UniqueChains]: when the loop over the documents ends without
    an exception, the results hold one chain for each document, in the
    order of the documents, and it is the least of the document's chains
    in the order of the strings (one of them, and before or equal to all
    of them). *)
Theorem unique_chains_are_the_least docs (rs : list pystr) :
  Solr.unique_chains docs [] = Solr.Done rs ->
  Forall2 least_chain_of docs rs.
Proof.
  intros H. destruct (unique_chains_acc docs [] rs H) as (rs' & -> & HF). exact HF.
Qed.

Lemma unique_chains_are_the_least_witness :
  Solr.unique_chains [SolrScenario.doc1; SolrScenario.doc2; SolrScenario.doc3] [] =
    Solr.Done [py "A"; py "D"; py "A"] /\
  Forall2 least_chain_of [SolrScenario.doc1; SolrScenario.doc2; SolrScenario.doc3]
          [py "A"; py "D"; py "A"].
Proof.
  assert (H : Solr.unique_chains [SolrScenario.doc1; SolrScenario.doc2; SolrScenario.doc3] [] =
              Solr.Done [py "A"; py "D"; py "A"]) by (vm_compute; reflexivity).
  split; [exact H|].
  exact (unique_chains_are_the_least _ _ H).
Defined.

(** X17. [UniqueChains]: a document whose list of chains is empty, after
    documents that each list a chain, makes the constructor raise
    IndexError, whatever the documents after it hold: no results are
    kept. *)
Theorem unique_chains_raises_on_empty_chain_list pre d post :
  Forall has_chains pre ->
  Solr.chain_id d = Some [] ->
  Solr.unique_chains (pre ++ d :: post) [] = Solr.Raised Solr.IndexError.
Proof.
  intros Hpre Hd. destruct (unique_chains_app pre (d :: post) [] Hpre) as [rs' ->].
  simpl. rewrite Hd. reflexivity.
Qed.

Lemma unique_chains_raises_on_empty_chain_list_witness :
  Forall has_chains [SolrScenario.doc1] /\
  Solr.chain_id SolrScenario.no_chain = Some [] /\
  Solr.unique_chains ([SolrScenario.doc1] ++ SolrScenario.no_chain :: [SolrScenario.doc2]) [] =
    Solr.Raised Solr.IndexError.
Proof.
  assert (H1 : Forall has_chains [SolrScenario.doc1]).
  { apply List.Forall_cons; [|apply List.Forall_nil].
    exists [py "C"; py "A"; py "B"]. split; [reflexivity | discriminate]. }
  assert (H2 : Solr.chain_id SolrScenario.no_chain = Some []) by reflexivity.
  split; [exact H1|]. split; [exact H2|].
  exact (unique_chains_raises_on_empty_chain_list _ _ [SolrScenario.doc2] H1 H2).
Defined.

(** X18. [IdenticalChains]: the first document that lists [chain] decides,
    the documents before it having their chains and the documents after
    it being never read: the results are the chains of that document,
    each as often as the document lists it, in ascending order. *)
Theorem identical_chains_of_first_listing chain pre d post (ids : list pystr) :
  Forall (lacks_chain chain) pre ->
  Solr.chain_id d = Some ids ->
  chain ∈ ids ->
  exists rs, Solr.identical_chains chain (pre ++ d :: post) = Solr.Done rs /\
             Permutation rs ids /\ StronglySorted str_le rs.
Proof.
  intros Hpre Hd Hin. exists (Solr.sorted ids).
  rewrite (identical_chains_app chain pre (d :: post) Hpre).
  simpl. rewrite Hd. simpl. rewrite bool_decide_eq_true_2 by exact Hin.
  split; [reflexivity|]. split; [apply sorted_perm | apply sorted_sorted].
Qed.

Lemma identical_chains_of_first_listing_witness :
  Forall (lacks_chain (py "A")) [SolrScenario.doc2] /\
  Solr.chain_id SolrScenario.doc1 = Some [py "C"; py "A"; py "B"] /\
  py "A" ∈ [py "C"; py "A"; py "B"] /\
  exists rs, Solr.identical_chains (py "A")
               ([SolrScenario.doc2] ++ SolrScenario.doc1 :: [SolrScenario.doc3]) =
             Solr.Done rs /\
             Permutation rs [py "C"; py "A"; py "B"] /\ StronglySorted str_le rs.
Proof.
  assert (H1 : Forall (lacks_chain (py "A")) [SolrScenario.doc2]).
  { apply List.Forall_cons; [|apply List.Forall_nil].
    exists [py "E"; py "D"]. split; [reflexivity|].
    intros H. apply elem_of_cons in H as [H|H]; [discriminate H|].
    apply elem_of_cons in H as [H|H]; [discriminate H|].
    apply elem_of_nil in H. exact H. }
  assert (H2 : Solr.chain_id SolrScenario.doc1 = Some [py "C"; py "A"; py "B"])
    by reflexivity.
  assert (H3 : py "A" ∈ [py "C"; py "A"; py "B"]).
  { apply list_elem_of_further, list_elem_of_here. }
  split; [exact H1|]. split; [exact H2|]. split; [exact H3|].
  exact (identical_chains_of_first_listing (py "A") _ _ [SolrScenario.doc3] _ H1 H2 H3).
Defined.

(** X19. [IdenticalChains]: the results are the empty list exactly when
    every document has its chains and none lists [chain]; so an empty
    answer is never the answer for a chain some document lists, and a
    chain of no document gives the empty list and no exception. *)
Theorem identical_chains_empty_iff_unlisted chain docs :
  Solr.identical_chains chain docs = Solr.Done [] <-> Forall (lacks_chain chain) docs.
Proof.
  split; [|apply identical_chains_lacking].
  induction docs as [|d docs IH]; intros H; [constructor|].
  simpl in H. destruct (Solr.chain_id d) as [ids|] eqn:Ei; simpl in H; [|discriminate].
  destruct (bool_decide (chain ∈ ids)) eqn:Eb.
  - exfalso. apply bool_decide_eq_true in Eb.
    injection H as H. pose proof (sorted_perm ids) as Hp. rewrite H in Hp.
    apply Permutation_nil in Hp. subst ids. apply elem_of_nil in Eb. exact Eb.
  - apply bool_decide_eq_false in Eb. constructor; [|exact (IH H)].
    exists ids. split; [exact Ei | exact Eb].
Qed.

(** X20. [ReleasedPDBs] with [uniq_chains] false, on documents that have
    both fields: the constructor returns, and the results hold the codes
    of the documents, each code once. *)
Theorem released_codes_without_repeats docs :
  Forall has_fields docs ->
  exists rs, Solr.released_pdbs false docs [] = Solr.Done rs /\ NoDup rs /\
    forall e, e ∈ rs <->
              exists d pid, d ∈ docs /\ Solr.pdb_id d = Some pid /\ e = Solr.Code pid.
Proof.
  intros H. destruct (released_codes_acc docs [] H (NoDup_nil_2 (A:=Solr.entry))) as (rs & Hrs & Hnd & Hel).
  exists rs. split; [exact Hrs|]. split; [exact Hnd|].
  intros e. rewrite Hel. split; [|auto].
  intros [He|He]; [|exact He]. apply elem_of_nil in He. destruct He.
Qed.

Lemma released_codes_without_repeats_witness :
  Forall has_fields [SolrScenario.doc1; SolrScenario.doc2; SolrScenario.doc3] /\
  Solr.released_pdbs false [SolrScenario.doc1; SolrScenario.doc2; SolrScenario.doc3] [] =
    Solr.Done [Solr.Code (py "2jlo"); Solr.Code (py "1j85")] /\
  exists rs,
    Solr.released_pdbs false [SolrScenario.doc1; SolrScenario.doc2; SolrScenario.doc3] [] =
      Solr.Done rs /\ NoDup rs /\
    forall e, e ∈ rs <->
              exists d pid, d ∈ [SolrScenario.doc1; SolrScenario.doc2; SolrScenario.doc3] /\
                            Solr.pdb_id d = Some pid /\ e = Solr.Code pid.
Proof.
  assert (H : Forall has_fields [SolrScenario.doc1; SolrScenario.doc2; SolrScenario.doc3]).
  { repeat (apply List.Forall_cons; [split; eexists; reflexivity|]). apply List.Forall_nil. }
  split; [exact H|]. split; [vm_compute; reflexivity|].
  exact (released_codes_without_repeats _ H).
Defined.

(** X21. [ReleasedPDBs] with [uniq_chains] true (the default): when the
    loop ends without an exception, the results hold one tuple for each
    document, in the order of the documents: the code of the document and
    the least of its chains.  A code is repeated as often as the index has
    documents for it. *)
Theorem released_pairs_follow_documents docs (rs : list Solr.entry) :
  Solr.released_pdbs true docs [] = Solr.Done rs ->
  Forall2 pair_of docs rs.
Proof.
  intros H. destruct (released_pairs_acc docs [] rs H) as (rs' & -> & HF). exact HF.
Qed.

Lemma released_pairs_follow_documents_witness :
  Solr.released_pdbs true [SolrScenario.doc1; SolrScenario.doc2; SolrScenario.doc3] [] =
    Solr.Done [Solr.Pair (py "2jlo") (py "A"); Solr.Pair (py "2jlo") (py "D");
               Solr.Pair (py "1j85") (py "A")] /\
  Forall2 pair_of [SolrScenario.doc1; SolrScenario.doc2; SolrScenario.doc3]
          [Solr.Pair (py "2jlo") (py "A"); Solr.Pair (py "2jlo") (py "D");
           Solr.Pair (py "1j85") (py "A")].
Proof.
  assert (H : Solr.released_pdbs true
                [SolrScenario.doc1; SolrScenario.doc2; SolrScenario.doc3] [] =
              Solr.Done [Solr.Pair (py "2jlo") (py "A"); Solr.Pair (py "2jlo") (py "D");
                         Solr.Pair (py "1j85") (py "A")]) by (vm_compute; reflexivity).
  split; [exact H|].
  exact (released_pairs_follow_documents _ _ H).
Defined.

End SolrProperties.

(** * The name of the output file *)

Section OutputPath.

Implicit Types (old new a b s : pystr).

Lemma replace_from_prefix old new a b (i : Z) :
  find_from old (a ++ b) i = (i + Z.of_nat (length a))%Z ->
  replace_from old new 0 (a ++ b) = a ++ replace_from old new 0 b.
Proof.
  revert i. induction a as [|c a IH]; intros i H; [reflexivity|].
  change ((c :: a) ++ b) with (c :: (a ++ b)) in *.
  cbn [find_from replace_from] in *.
  destruct (startswith old (c :: a ++ b)).
  - exfalso. cbn [length] in H. lia.
  - cbn [app]. f_equal. apply (IH (i + 1)%Z). rewrite H. cbn [length]. lia.
Qed.

Lemma replace_from_skip old new (pre b : pystr) :
  replace_from old new (length pre) (pre ++ b) = replace_from old new 0 b.
Proof.
  induction pre as [|c pre IH]; [reflexivity|]. simpl. exact IH.
Qed.

Lemma replace_first_occurrence old new a b :
  old <> [] ->
  find (a ++ old ++ b) old = Z.of_nat (length a) ->
  replace (a ++ old ++ b) old new = a ++ new ++ replace b old new.
Proof.
  intros Hne H. unfold replace, find in *.
  rewrite (replace_from_prefix old new a (old ++ b) 0 H). f_equal.
  destruct old as [|c old]; [contradiction|].
  change ((c :: old) ++ b) with (c :: (old ++ b)).
  cbn [replace_from].
  change (c :: old ++ b) with ((c :: old) ++ b). rewrite startswith_app.
  f_equal. cbn [length]. rewrite Nat.sub_succ, Nat.sub_0_r.
  apply replace_from_skip.
Qed.

(** X22. The output path of the remapper is [self.out_file] with every
    [.pdb] replaced, not only the extension: up to the first [.pdb] the
    path is kept, there the chain is put in ([_] and the chain before
    [.pdb]), and the rest of the path is treated the same way.  So a
    path whose only [.pdb] is its extension, [stem.pdb], becomes
    [stem_chain.pdb], and a directory name that holds [.pdb] is changed
    as well. *)
Theorem output_path_replaces_every_pdb (self : PdbFile) (c a b : pystr) :
  out_file self = a ++ py ".pdb" ++ b ->
  find (out_file self) (py ".pdb") = Z.of_nat (length a) ->
  remapped_path self c =
    a ++ ((py "_" ++ c) ++ py ".pdb") ++ replace b (py ".pdb") ((py "_" ++ c) ++ py ".pdb").
Proof.
  intros E H. unfold remapped_path. rewrite E in H |- *.
  apply replace_first_occurrence; [discriminate | exact H].
Qed.

Lemma output_path_replaces_every_pdb_witness :
  let self := mkPdbFile (py "/data/run.pdb.d") (py "1abc") (Some (py "B")) None
                        (py "/data/run.pdb.d/1abc.pdb") in
  out_file self = py "/data/run" ++ py ".pdb" ++ py ".d/1abc.pdb" /\
  find (out_file self) (py ".pdb") = Z.of_nat (length (py "/data/run")) /\
  remapped_path self (py "B") = py "/data/run_B.pdb.d/1abc_B.pdb".
Proof.
  cbv zeta.
  assert (H1 : out_file (mkPdbFile (py "/data/run.pdb.d") (py "1abc") (Some (py "B")) None
                                   (py "/data/run.pdb.d/1abc.pdb")) =
               py "/data/run" ++ py ".pdb" ++ py ".d/1abc.pdb") by reflexivity.
  assert (H2 : find (out_file (mkPdbFile (py "/data/run.pdb.d") (py "1abc") (Some (py "B")) None
                                         (py "/data/run.pdb.d/1abc.pdb"))) (py ".pdb") =
               Z.of_nat (length (py "/data/run"))) by (vm_compute; reflexivity).
  split; [exact H1|]. split; [exact H2|].
  exact (output_path_replaces_every_pdb _ (py "B") _ _ H1 H2).
Defined.

End OutputPath.
